(** * Signum front-end: the Runs filter, the Markdown preview, the JSON editor
      and the Mermaid mount hook

    A shallow embedding of the script blocks of the pages
    [RunsPage.vue], [PreviewPage.vue] and [HomePage.vue].

    JavaScript strings are sequences of UTF-16 code units; they are modelled
    as lists of [N].  The runtime primitives the pages call
    ([String.prototype.includes], [JSON.stringify] on flat records,
    [String.prototype.replace] with a global regular expression, [try]/[catch])
    are modelled in the modules [JS] and [RegExp]; the primitives whose
    behaviour belongs to the engine ([toLowerCase], [JSON.parse]) or to an
    external collaborator ([window.mermaid]) are parameters of the
    definitions that call them. *)

From Stdlib Require Import NArith PeanoNat List Bool Ascii String Lia.
Import ListNotations.

Set Implicit Arguments.

(* ================================================================== *)
(** ** Runtime primitives *)
(* ================================================================== *)

Module JS.

(** A UTF-16 code unit. *)
Definition char := N.

(** A JavaScript string value. *)
Definition jsstring := list char.

(** Code units of an ASCII literal of this development. *)
Definition str (s : string) : jsstring :=
  map N_of_ascii (list_ascii_of_string s).

Definition LF : char := 10%N.
Definition CR : char := 13%N.
Definition LS : char := 8232%N.   (* U+2028 *)
Definition PS : char := 8233%N.   (* U+2029 *)
Definition DQUOTE : char := 34%N.
Definition BACKSLASH : char := 92%N.
Definition HASH : char := 35%N.
Definition SPACE : char := 32%N.

(** ECMAScript [LineTerminator]: LF, CR, LS, PS. *)
Definition isLineTerminator (c : char) : bool :=
  (c =? LF)%N || (c =? CR)%N || (c =? LS)%N || (c =? PS)%N.

(** [s] begins with [p]. *)
Fixpoint startsWith (p s : jsstring) : bool :=
  match p, s with
  | [], _ => true
  | _ :: _, [] => false
  | a :: p', b :: s' => (a =? b)%N && startsWith p' s'
  end.

(** [String.prototype.includes]: some position of [s] starts an occurrence
    of [q] (position [length s] included, where only the empty [q] fits). *)
Fixpoint includes (s q : jsstring) : bool :=
  startsWith q s ||
  match s with
  | [] => false
  | _ :: s' => includes s' q
  end.

(** [a === b] on two strings: the same code units. *)
Fixpoint strictEquals (a b : jsstring) : bool :=
  match a, b with
  | [], [] => true
  | x :: a', y :: b' => (x =? y)%N && strictEquals a' b'
  | _, _ => false
  end.

(** *** [JSON.stringify] on strings: QuoteJSONString *)

Definition isLeadSurrogate (c : char) : bool :=
  (55296 <=? c)%N && (c <=? 56319)%N.     (* D800..DBFF *)
Definition isTrailSurrogate (c : char) : bool :=
  (56320 <=? c)%N && (c <=? 57343)%N.     (* DC00..DFFF *)

Definition hexDigit (n : N) : char :=
  if (n <? 10)%N then (48 + n)%N else (87 + n)%N.

(** [UnicodeEscape]: backslash, [u], four lower-case hexadecimal digits. *)
Definition unicodeEscape (c : char) : jsstring :=
  [BACKSLASH; 117%N;
   hexDigit ((c / 4096) mod 16); hexDigit ((c / 256) mod 16);
   hexDigit ((c / 16) mod 16); hexDigit (c mod 16)]%N.

(** One code point that is a single code unit. *)
Definition quoteUnit (c : char) : jsstring :=
  if (c =? 8)%N then [BACKSLASH; 98%N]            (* \b *)
  else if (c =? 9)%N then [BACKSLASH; 116%N]      (* \t *)
  else if (c =? 10)%N then [BACKSLASH; 110%N]     (* \n *)
  else if (c =? 12)%N then [BACKSLASH; 102%N]     (* \f *)
  else if (c =? 13)%N then [BACKSLASH; 114%N]     (* \r *)
  else if (c =? DQUOTE)%N then [BACKSLASH; DQUOTE]
  else if (c =? BACKSLASH)%N then [BACKSLASH; BACKSLASH]
  else if (c <? 32)%N || isLeadSurrogate c || isTrailSurrogate c
       then unicodeEscape c
  else [c].

(** The code points of the string are visited in order: a lead surrogate
    followed by a trail surrogate is one code point and is copied, a lone
    surrogate is escaped. *)
Fixpoint quoteUnits (s : jsstring) : jsstring :=
  match s with
  | [] => []
  | c :: s' =>
      if isLeadSurrogate c then
        match s' with
        | d :: s'' =>
            if isTrailSurrogate d then c :: d :: quoteUnits s''
            else unicodeEscape c ++ quoteUnits s'
        | [] => unicodeEscape c
        end
      else quoteUnit c ++ quoteUnits s'
  end.

Definition quoteJSONString (s : jsstring) : jsstring :=
  [DQUOTE] ++ quoteUnits s ++ [DQUOTE].

(** *** Completions: a value is returned or an exception is thrown *)

Inductive exn : Type :=
| SyntaxError (message : jsstring)
| TypeError (message : jsstring)
| Thrown (value : jsstring).

Inductive outcome (A : Type) : Type :=
| Return (a : A)
| Throw (e : exn).
Arguments Return {A} a.
Arguments Throw {A} e.

Definition bind {A B} (m : outcome A) (k : A -> outcome B) : outcome B :=
  match m with
  | Return a => k a
  | Throw e => Throw e
  end.

(** [try { body } catch { handler }] (the caught value is not bound). *)
Definition try_catch {A} (body : outcome A) (handler : outcome A) : outcome A :=
  match body with
  | Return a => Return a
  | Throw _ => handler
  end.

End JS.

Import JS.

Notation "x <- m ;; k" := (bind m (fun x => k))
  (at level 61, m at next level, right associativity).
Notation "m ;;; k" := (bind m (fun _ => k))
  (at level 61, right associativity).

(* ================================================================== *)
(** ** RunsPage.vue *)
(* ================================================================== *)

Module RunsPage.

(** A row: its own string-keyed properties in property order, every value
    a string (the rows of the page are [{ id, name, status }]). *)
Definition Row := list (jsstring * jsstring).

(** [JSON.stringify(r)] for such a row (SerializeJSONObject with an empty
    gap): the members [key:value], both quoted, separated by commas. *)
Definition member (kv : jsstring * jsstring) : jsstring :=
  quoteJSONString (fst kv) ++ str ":" ++ quoteJSONString (snd kv).

Fixpoint join_comma (l : list jsstring) : jsstring :=
  match l with
  | [] => []
  | [x] => x
  | x :: l' => x ++ str "," ++ join_comma l'
  end.

Definition JSON_stringify (r : Row) : jsstring :=
  str "{" ++ join_comma (map member r) ++ str "}".

Definition rows : list Row :=
  [ [ (str "id", str "a1"); (str "name", str "Alpha"); (str "status", str "PASSED") ];
    [ (str "id", str "b2"); (str "name", str "Beta"); (str "status", str "FAILED") ];
    [ (str "id", str "c3"); (str "name", str "Gamma"); (str "status", str "RUNNING") ] ].

Section Filtered.

(** [String.prototype.toLowerCase] of the engine. *)
Variable toLowerCase : jsstring -> jsstring.

(** The computed [filtered], as a function of [rows.value] and
    [filter.value]. *)
Definition filtered (rows_value : list Row) (filter_value : jsstring)
  : list Row :=
  let q := toLowerCase filter_value in
  List.filter (fun r => includes (toLowerCase (JSON_stringify r)) q) rows_value.

End Filtered.

(** Lower-casing of the ASCII letters, every other code unit kept: the
    restriction of [toLowerCase] to ASCII text. *)
Definition asciiLower (c : char) : char :=
  if (65 <=? c)%N && (c <=? 90)%N then (c + 32)%N else c.

Definition toLowerCase_ascii (s : jsstring) : jsstring := map asciiLower s.

(** [r[key]]: the value of the property, [None] for [undefined]. *)
Fixpoint get (r : Row) (key : jsstring) : option jsstring :=
  match r with
  | [] => None
  | (k, v) :: r' => if strictEquals k key then Some v else get r' key
  end.

(** [statusClass(s)]; the argument is [props.row.status], which is
    [undefined] ([None]) on a row without the property, and [===] is then
    false. *)
Definition statusClass (s : option jsstring) : jsstring :=
  match s with
  | Some v =>
      if strictEquals v (str "PASSED") then str "neon-tag--passed"
      else if strictEquals v (str "FAILED") then str "neon-tag--failed"
      else str "neon-tag--running"
  | None => str "neon-tag--running"
  end.

(** The class of the status cell of a row:
    [statusClass(props.row.status)]. *)
Definition status_cell_class (r : Row) : jsstring :=
  statusClass (get r (str "status")).

End RunsPage.

(* ================================================================== *)
(** ** Regular expressions: the fragment used by PreviewPage.vue *)
(* ================================================================== *)

Module RegExp.

(** Terms that consume one code unit.  Under the [i] flag a literal matches
    the units with the same canonical form; the literals of the page are
    [#], the space and LF, which are alone in their class, so the
    comparison is equality.  [.] (no [s] flag) matches every unit but the
    line terminators. *)
Inductive atom : Type :=
| Chr (c : char)
| Dot.

Inductive regex : Type :=
| Eps
| Atom (a : atom)
| Star (a : atom)             (* greedy [a*] *)
| Bol                         (* [^] under the [m] flag *)
| Eol                         (* [$] under the [m] flag *)
| Seq (r1 r2 : regex)
| Group (r : regex).          (* capturing group number 1 *)

Definition seqs (l : list regex) : regex := fold_right Seq Eps l.

(** A literal run of units. *)
Definition lit (s : jsstring) : regex := seqs (map (fun c => Atom (Chr c)) s).

(** Matcher state: the unit before the current position (none at index
    0), the input from the current position on, the capture of group 1. *)
Record mstate : Type := MState {
  prev : option char;
  after : jsstring;
  cap1 : option jsstring
}.

Definition atom_matches (a : atom) (c : char) : bool :=
  match a with
  | Chr d => (d =? c)%N
  | Dot => negb (isLineTerminator c)
  end.

(** [^] with [m]: at index 0 or just after a line terminator. *)
Definition at_bol (p : option char) : bool :=
  match p with
  | None => true
  | Some c => isLineTerminator c
  end.

(** [$] with [m]: at the end of the input or just before a line
    terminator. *)
Definition at_eol (s : jsstring) : bool :=
  match s with
  | [] => true
  | c :: _ => isLineTerminator c
  end.

Definition cont := mstate -> option mstate.

(** Greedy repetition of an atom: one more unit is tried first; when the
    rest of the pattern fails after it, the matcher backtracks and
    continues from here. *)
Fixpoint star_atom (a : atom) (p : option char) (s : jsstring)
         (cap : option jsstring) (k : cont) : option mstate :=
  match s with
  | c :: s' =>
      if atom_matches a c then
        match star_atom a (Some c) s' cap k with
        | Some r => Some r
        | None => k (MState p s cap)
        end
      else k (MState p s cap)
  | [] => k (MState p s cap)
  end.

(** Backtracking matcher in continuation-passing style. *)
Fixpoint matcher (r : regex) (st : mstate) (k : cont) : option mstate :=
  match r with
  | Eps => k st
  | Atom a =>
      match after st with
      | c :: s' =>
          if atom_matches a c then k (MState (Some c) s' (cap1 st)) else None
      | [] => None
      end
  | Star a => star_atom a (prev st) (after st) (cap1 st) k
  | Bol => if at_bol (prev st) then k st else None
  | Eol => if at_eol (after st) then k st else None
  | Seq r1 r2 => matcher r1 st (fun st' => matcher r2 st' k)
  | Group r' =>
      matcher r' st (fun st' =>
        k (MState (prev st') (after st')
             (Some (firstn (List.length (after st) - List.length (after st')) (after st)))))
  end.

(** One attempt at the current position: the state at the end of the
    match, if there is one. *)
Definition exec_at (r : regex) (p : option char) (s : jsstring) : option mstate :=
  matcher r (MState p s None) Some.

(** Replacement templates: literal text and [$1]. *)
Inductive titem : Type :=
| TLit (s : jsstring)
| TGroup1.

Definition template := list titem.

(** GetSubstitution: [$1] is the capture, or the empty string when the
    group did not take part in the match. *)
Definition substitute (t : template) (cap : option jsstring) : jsstring :=
  flat_map (fun i =>
    match i with
    | TLit s => s
    | TGroup1 => match cap with Some c => c | None => [] end
    end) t.

(** [String.prototype.replace] with a [g] regular expression.  The input is
    scanned from left to right; [skip] counts the units of the current
    match still to be passed over.  At a position outside a match the
    pattern is tried: on success the substitution is emitted and the scan
    resumes at the end of the match (one unit further after an empty
    match, that unit being copied); on failure the unit is copied. *)
Fixpoint replace_from (r : regex) (t : template) (p : option char)
         (skip : nat) (s : jsstring) : jsstring :=
  match skip with
  | S n =>
      match s with
      | c :: s' => replace_from r t (Some c) n s'
      | [] => []
      end
  | O =>
      match exec_at r p s with
      | Some st =>
          substitute t (cap1 st) ++
          match s with
          | c :: s' =>
              match List.length s - List.length (after st) with
              | O => c :: replace_from r t (Some c) O s'
              | S n => replace_from r t (Some c) n s'
              end
          | [] => []
          end
      | None =>
          match s with
          | c :: s' => c :: replace_from r t (Some c) O s'
          | [] => []
          end
      end
  end.

Definition replace (r : regex) (t : template) (s : jsstring) : jsstring :=
  replace_from r t None O s.

End RegExp.

Import RegExp.

(* ================================================================== *)
(** ** PreviewPage.vue *)
(* ================================================================== *)

Module PreviewPage.

(** *** The Markdown fallback *)

(** [/^### (.*$)/gim] *)
Definition re_h3 : regex :=
  seqs [Bol; lit (str "### "); Group (seqs [Star Dot; Eol])].

(** [/^## (.*$)/gim] *)
Definition re_h2 : regex :=
  seqs [Bol; lit (str "## "); Group (seqs [Star Dot; Eol])].

(** [/^# (.*$)/gim] *)
Definition re_h1 : regex :=
  seqs [Bol; lit (str "# "); Group (seqs [Star Dot; Eol])].

(** [/\n$/gim] *)
Definition re_br : regex :=
  seqs [Atom (Chr LF); Eol].

(** An opening tag with a [class] attribute. *)
Definition open_tag (name cls : string) : jsstring :=
  str "<" ++ str name ++ str " class=" ++ [DQUOTE] ++ str cls ++ [DQUOTE] ++ str ">".

Definition tpl_h3 : template :=
  [TLit (open_tag "h3" "neon-subtitle"); TGroup1; TLit (str "</h3>")].
Definition tpl_h2 : template :=
  [TLit (open_tag "h2" "neon-subtitle"); TGroup1; TLit (str "</h2>")].
Definition tpl_h1 : template :=
  [TLit (open_tag "h1" "neon-title"); TGroup1; TLit (str "</h1>")].
Definition tpl_br : template :=
  [TLit (str "<br/>")].

(** The computed [renderedMd], as a function of [md.value]: the four
    [replace] calls, chained in the order of the source. *)
Definition renderedMd (md_value : jsstring) : jsstring :=
  replace re_br tpl_br
    (replace re_h1 tpl_h1
       (replace re_h2 tpl_h2
          (replace re_h3 tpl_h3 md_value))).

(** Initial value of [md] (i-acute is U+00ED). *)
Definition md : jsstring :=
  str "# T" ++ [237%N] ++ str "tulo" ++ [LF; LF] ++
  str "## Subt" ++ [237%N] ++ str "tulo" ++ [LF; LF] ++
  str "Contenido...".

(** *** The mount hook *)

(** What an element shows: the last assignment to [innerHTML] or to
    [innerText]. *)
Inductive content : Type :=
| Markup (html : jsstring)
| PlainText (text : jsstring).

(** The template refs: [None] is a [null] ref. *)
Record refs : Type := Refs {
  umlEl : option content;
  ganttEl : option content
}.

Record themeVariables : Type := ThemeVariables {
  lineColor : jsstring;
  primaryTextColor : jsstring
}.

Record config : Type := Config {
  startOnLoad : bool;
  theme : jsstring;
  variables : themeVariables
}.

Record renderResult : Type := RenderResult { svg : jsstring }.

(** The collaborator found at [window.mermaid].  [render] is awaited: a
    rejected promise is a thrown exception at the [await]. *)
Record Mermaid : Type := MkMermaid {
  initialize : config -> outcome unit;
  render : jsstring -> jsstring -> outcome renderResult
}.

Definition code : jsstring :=
  str "classDiagram" ++ [LF] ++ str "A <|-- B" ++ [LF] ++
  str "A : +foo()" ++ [LF] ++ str "B : +bar()".

Definition mermaid_config : config :=
  Config false (str "dark") (ThemeVariables (str "#00f0ff") (str "#e5e7eb")).

Definition gantt_placeholder : jsstring :=
  str "<div style=" ++ [DQUOTE] ++ str "color:#00ff7f" ++ [DQUOTE] ++
  str ">[Gantt here]</div>".

(** The body of the [try] block. *)
Definition mount_uml (window_mermaid : option Mermaid) (st : refs) : outcome refs :=
  match window_mermaid, umlEl st with
  | Some mermaid, Some _ =>
      initialize mermaid mermaid_config ;;;
      r <- render mermaid (str "uml-svg") code ;;
      Return (Refs (Some (Markup (svg r))) (ganttEl st))
  | _, Some _ =>
      Return (Refs (Some (PlainText code)) (ganttEl st))
  | _, None => Return st
  end.

(** The callback given to [onMounted]: the [try] block with its empty
    [catch], then the Gantt placeholder. *)
Definition onMounted (window_mermaid : option Mermaid) (st : refs) : outcome refs :=
  st1 <- try_catch (mount_uml window_mermaid st) (Return st) ;;
  match ganttEl st1 with
  | Some _ => Return (Refs (umlEl st1) (Some (Markup gantt_placeholder)))
  | None => Return st1
  end.

End PreviewPage.

(* ================================================================== *)
(** ** HomePage.vue *)
(* ================================================================== *)

Module HomePage.

(** Values [JSON.parse] returns.  A number is kept as its literal. *)
#[local] Unset Elimination Schemes.
Inductive JSON : Type :=
| JNull
| JBool (b : bool)
| JNumber (literal : jsstring)
| JString (s : jsstring)
| JArray (items : list JSON)
| JObject (members : list (jsstring * JSON)).
#[local] Set Elimination Schemes.

(** [v !== null] *)
Definition not_null (v : JSON) : bool :=
  match v with
  | JNull => false
  | _ => true
  end.

(** The literal message of the editor (a-acute is U+00E1). *)
Definition invalid_message : jsstring :=
  str "JSON inv" ++ [225%N] ++ str "lido".

Section Editor.

(** [JSON.parse] of the engine: a value, or a thrown [SyntaxError]. *)
Variable JSON_parse : jsstring -> outcome JSON.

(** The computed [parsed], as a function of [raw.value]. *)
Definition parsed (raw_value : jsstring) : outcome JSON :=
  try_catch (JSON_parse raw_value) (Return JNull).

(** The callback of [watch(raw, ...)]: the new value of [errorMsg]. *)
Definition watch_raw (val : jsstring) (errorMsg : jsstring) : outcome jsstring :=
  try_catch (JSON_parse val ;;; Return (str "")) (Return invalid_message).

(** The computed [isValid]. *)
Definition isValid (raw_value : jsstring) : outcome bool :=
  v <- parsed raw_value ;;
  Return (not_null v).

(** [upload()]: one [console.log('uploaded', parsed.value)]; the console
    is the list of logged lines. *)
Definition upload (raw_value : jsstring) (console : list (jsstring * JSON))
  : outcome (list (jsstring * JSON)) :=
  v <- parsed raw_value ;;
  Return (console ++ [(str "uploaded", v)]).

End Editor.

(** A parse function for exercising both branches of the editor: it
    accepts the three JSON literal names only and throws on any other
    text. *)
Definition parse_literal_name (s : jsstring) : outcome JSON :=
  if startsWith s (str "null") && startsWith (str "null") s then Return JNull
  else if startsWith s (str "true") && startsWith (str "true") s then Return (JBool true)
  else if startsWith s (str "false") && startsWith (str "false") s then Return (JBool false)
  else Throw (SyntaxError (str "Unexpected token")).

End HomePage.

(* ================================================================== *)
(** ** Vocabulary of the statements *)
(* ================================================================== *)

Import RunsPage PreviewPage HomePage.

(** [q] occurs in [s] as a contiguous run of code units. *)
Definition Substring (q s : jsstring) : Prop :=
  exists pre post, s = pre ++ q ++ post.

(** [l1] is obtained from [l2] by deleting elements: the elements kept are
    those of [l2], each at most once, in the order of [l2]. *)
Inductive Subseq {A : Type} : list A -> list A -> Prop :=
| Subseq_nil : Subseq [] []
| Subseq_skip (x : A) (l1 l2 : list A) : Subseq l1 l2 -> Subseq l1 (x :: l2)
| Subseq_keep (x : A) (l1 l2 : list A) : Subseq l1 l2 -> Subseq (x :: l1) (x :: l2).

(** Some line of the text begins with [#]; [bol] tells whether the scan is
    at the beginning of a line.  Lines end at the line terminators of the
    language. *)
Fixpoint hash_line_from (bol : bool) (s : jsstring) : bool :=
  match s with
  | [] => false
  | c :: s' => (bol && (c =? HASH)%N) || hash_line_from (isLineTerminator c) s'
  end.

Definition has_hash_line (s : jsstring) : bool := hash_line_from true s.

(** The last code unit of the text is LF. *)
Fixpoint ends_with_newline (s : jsstring) : bool :=
  match s with
  | [] => false
  | [c] => (c =? LF)%N
  | _ :: s' => ends_with_newline s'
  end.

(** Some LF of the text is the last code unit or stands just before a line
    terminator. *)
Fixpoint has_closing_newline (s : jsstring) : bool :=
  match s with
  | [] => false
  | c :: s' => ((c =? LF)%N && at_eol s') || has_closing_newline s'
  end.

(** The line-break rule in words: every LF that is the last code unit or
    stands just before a line terminator becomes the tag, every other code
    unit is kept. *)
Fixpoint line_breaks (s : jsstring) : jsstring :=
  match s with
  | [] => []
  | c :: s' =>
      if (c =? LF)%N && at_eol s' then str "<br/>" ++ line_breaks s'
      else c :: line_breaks s'
  end.

(** The first line of a text: the code units before the first line
    terminator. *)
Fixpoint line_head (s : jsstring) : jsstring :=
  match s with
  | [] => []
  | c :: s' => if isLineTerminator c then [] else c :: line_head s'
  end.

(** The text from its first line terminator on. *)
Fixpoint line_tail (s : jsstring) : jsstring :=
  match s with
  | [] => []
  | c :: s' => if isLineTerminator c then s else line_tail s'
  end.

(** The code unit just before [line_tail s], [p] being the one before
    [s]. *)
Fixpoint line_prev (p : option char) (s : jsstring) : option char :=
  match s with
  | [] => p
  | c :: s' => if isLineTerminator c then p else line_prev (Some c) s'
  end.

(** No code unit of the text is a line terminator. *)
Definition one_line (s : jsstring) : bool :=
  forallb (fun c => negb (isLineTerminator c)) s.

(** The first code unit is [#]. *)
Definition starts_with_hash (s : jsstring) : bool :=
  match s with
  | c :: _ => (c =? HASH)%N
  | [] => false
  end.

(** A heading pattern can only match at the beginning of a line, on a [#]. *)
Definition heading_like (r : regex) : Prop :=
  forall p s, at_bol p && starts_with_hash s = false -> exec_at r p s = None.

(** The collaborator fails: [initialize] throws, or it returns and the
    awaited [render] is rejected. *)
Definition mermaid_fails (m : Mermaid) : Prop :=
  (exists e, initialize m mermaid_config = Throw e) \/
  (exists u e, initialize m mermaid_config = Return u /\
               render m (str "uml-svg") code = Throw e).

(** A collaborator whose [render] is always rejected. *)
Definition rejecting_mermaid : Mermaid :=
  MkMermaid (fun _ => Return tt)
            (fun _ _ => Throw (Thrown (str "Parse error on line 1"))).

(** A collaborator whose [initialize] throws. *)
Definition broken_mermaid : Mermaid :=
  MkMermaid (fun _ => Throw (TypeError (str "initialize is not a function")))
            (fun _ _ => Return (RenderResult (str "<svg></svg>"))).

(** Both diagram elements mounted and still empty. *)
Definition mounted_refs : refs :=
  Refs (Some (Markup [])) (Some (Markup [])).

(** *** Text classes used by the statements about the filter *)

(** Every code unit is below 128. *)
Definition is_ascii (s : jsstring) : bool :=
  forallb (fun c => (c <? 128)%N) s.

(** ASCII text that [JSON.stringify] copies as it is: no control
    character, no double quote, no backslash. *)
Definition plain (s : jsstring) : bool :=
  forallb (fun c => (32 <=? c)%N && (c <? 128)%N &&
                    negb (c =? DQUOTE)%N && negb (c =? BACKSLASH)%N) s.

(** Some code unit is a control character (below 32). *)
Definition has_control (s : jsstring) : bool :=
  existsb (fun c => (c <? 32)%N) s.

(** Keys and values of the row are ASCII. *)
Definition ascii_row (r : Row) : bool :=
  forallb (fun kv => is_ascii (fst kv) && is_ascii (snd kv)) r.

(** *** Text classes used by the statements about the preview *)

(** The pattern [^m(.*$)] for a literal [m]; the three heading patterns of
    the page are its instances. *)
Definition heading_re (m : jsstring) : regex :=
  seqs [Bol; lit m; Group (seqs [Star Dot; Eol])].

(** The template [o$1c]. *)
Definition heading_tpl (o c : jsstring) : template :=
  [TLit o; TGroup1; TLit c].

(** The code unit before the position reached after reading [l], [p]
    being the one before [l]. *)
Definition last_unit (l : jsstring) (p : option char) : option char :=
  fold_left (fun _ c => Some c) l p.

(** Some line of the text begins with [m]; [bol] tells whether the scan is
    at the beginning of a line. *)
Fixpoint marker_line_from (m : jsstring) (bol : bool) (s : jsstring) : bool :=
  (bol && startsWith m s) ||
  match s with
  | [] => false
  | c :: s' => marker_line_from m (isLineTerminator c) s'
  end.

(** A run of [#] and spaces that begins with [#]. *)
Definition marker (m : jsstring) : bool :=
  starts_with_hash m && forallb (fun c => (c =? HASH)%N || (c =? SPACE)%N) m.

(** Some line begins with one of the three heading markers, space
    included. *)
Definition has_heading_line (s : jsstring) : bool :=
  marker_line_from (str "### ") true s ||
  marker_line_from (str "## ") true s ||
  marker_line_from (str "# ") true s.

(** A collaborator that renders every diagram as the same markup. *)
Definition constant_mermaid (markup : jsstring) : Mermaid :=
  MkMermaid (fun _ => Return tt) (fun _ _ => Return (RenderResult markup)).

(* ================================================================== *)
(** ** Strings: prefixes and occurrences *)
(* ================================================================== *)

Lemma startsWith_app (p post : jsstring) : startsWith p (p ++ post) = true.
Proof.
  induction p as [|a p IH]; simpl.
  - reflexivity.
  - now rewrite N.eqb_refl, IH.
Qed.

Lemma startsWith_inv (p s : jsstring) :
  startsWith p s = true -> exists post, s = p ++ post.
Proof.
  revert s; induction p as [|a p IH]; intros s H.
  - now exists s.
  - destruct s as [|b s]; simpl in H; [discriminate|].
    apply andb_true_iff in H as [Hab Hps].
    apply N.eqb_eq in Hab; subst b.
    destruct (IH _ Hps) as [post ->].
    now exists post.
Qed.

Lemma startsWith_nil (s : jsstring) : startsWith [] s = true.
Proof. now destruct s. Qed.

Lemma includes_prefix (s q : jsstring) :
  startsWith q s = true -> includes s q = true.
Proof. intros H; destruct s; simpl; now rewrite H. Qed.

Lemma includes_occurrence (s q : jsstring) :
  includes s q = true <-> Substring q s.
Proof.
  unfold Substring; split.
  - induction s as [|c s IH]; simpl; intros H.
    + rewrite orb_false_r in H.
      destruct (startsWith_inv _ _ H) as [post E].
      exists [], post. exact E.
    + apply orb_true_iff in H as [H|H].
      * destruct (startsWith_inv _ _ H) as [post E].
        exists [], post. exact E.
      * destruct (IH H) as (pre & post & ->).
        now exists (c :: pre), post.
  - intros (pre & post & ->).
    induction pre as [|c pre IH]; simpl.
    + apply includes_prefix, startsWith_app.
    + rewrite IH. apply orb_true_r.
Qed.

Lemma includes_empty (s : jsstring) : includes s [] = true.
Proof. destruct s; simpl; now rewrite ?startsWith_nil. Qed.

(* ================================================================== *)
(** ** Array.prototype.filter: the kept elements *)
(* ================================================================== *)

Lemma filter_Subseq {A : Type} (f : A -> bool) (l : list A) :
  Subseq (List.filter f l) l.
Proof.
  induction l as [|x l IH]; simpl.
  - constructor.
  - destruct (f x); now constructor.
Qed.

Lemma filter_all {A : Type} (f : A -> bool) (l : list A) :
  (forall x, f x = true) -> List.filter f l = l.
Proof.
  intros Hf; induction l as [|x l IH]; simpl.
  - reflexivity.
  - now rewrite Hf, IH.
Qed.

Lemma filter_twice {A : Type} (f : A -> bool) (l : list A) :
  List.filter f (List.filter f l) = List.filter f l.
Proof.
  induction l as [|x l IH]; simpl.
  - reflexivity.
  - destruct (f x) eqn:E; simpl; now rewrite ?E, IH.
Qed.

Lemma Subseq_length {A : Type} (l1 l2 : list A) :
  Subseq l1 l2 -> List.length l1 <= List.length l2.
Proof. induction 1; simpl; lia. Qed.

Lemma Subseq_In {A : Type} (l1 l2 : list A) (x : A) :
  Subseq l1 l2 -> In x l1 -> In x l2.
Proof.
  induction 1; simpl; intros Hx.
  - exact Hx.
  - right; auto.
  - destruct Hx as [->|Hx]; [now left | right; auto].
Qed.

(* ================================================================== *)
(** ** RunsPage: the computed [filtered] *)
(* ================================================================== *)

Section FilteredFacts.

Variable toLowerCase : jsstring -> jsstring.

(** C1.  A record belongs to [filtered R q] exactly when it is a record of
    [R] whose [JSON.stringify] text, lower-cased, contains the lower-cased
    [q] as a contiguous run: every member of the result matches, and no
    record of [R] that matches is left out. *)
Theorem filtered_exactly_the_matching_records
  (R : list Row) (q : jsstring) (r : Row) :
  In r (filtered toLowerCase R q) <->
  In r R /\ Substring (toLowerCase q) (toLowerCase (JSON_stringify r)).
Proof.
  unfold filtered; cbv zeta.
  rewrite filter_In, includes_occurrence.
  reflexivity.
Qed.

(** C5.  [filtered R q] is a subsequence of [R]: the records kept are
    records of [R], unchanged, in their order in [R], none repeated or
    added. *)
Theorem filtered_is_subsequence (R : list Row) (q : jsstring) :
  Subseq (filtered toLowerCase R q) R.
Proof. unfold filtered; cbv zeta. apply filter_Subseq. Qed.

(** C6.  Filtering the result again with the same query changes
    nothing. *)
Theorem filtered_idempotent (R : list Row) (q : jsstring) :
  filtered toLowerCase (filtered toLowerCase R q) q = filtered toLowerCase R q.
Proof. unfold filtered; cbv zeta. apply filter_twice. Qed.

(** The lower-cased empty string is the empty string. *)
Hypothesis toLowerCase_empty : toLowerCase [] = [].

(** C4.  With the empty query every record is kept: [filtered R ""] is
    [R], same records in the same order. *)
Theorem filtered_empty_query (R : list Row) :
  filtered toLowerCase R [] = R.
Proof.
  unfold filtered; cbv zeta.
  rewrite toLowerCase_empty.
  apply filter_all. intros r. apply includes_empty.
Qed.

End FilteredFacts.

(** The ASCII lower-casing maps the empty string to itself, and the empty
    query returns the three rows of the page. *)
Lemma filtered_empty_query_witness :
  toLowerCase_ascii [] = [] /\ filtered toLowerCase_ascii rows [] = rows.
Proof.
  split; [reflexivity|].
  apply (@filtered_empty_query toLowerCase_ascii); reflexivity.
Defined.

(** The scenario of the page: the query [fail] keeps the row [b2] only. *)
Example filtered_fail :
  filtered toLowerCase_ascii rows (str "fail") =
  [ [ (str "id", str "b2"); (str "name", str "Beta"); (str "status", str "FAILED") ] ].
Proof. vm_compute. reflexivity. Qed.

(* ================================================================== *)
(** ** The regular expressions of the preview, position by position *)
(* ================================================================== *)

#[local] Arguments N.eqb : simpl never.
#[local] Arguments isLineTerminator : simpl never.

Lemma re_h3_heading_like : heading_like re_h3.
Proof.
  intros p s H. unfold exec_at, re_h3. simpl.
  destruct (at_bol p); [|reflexivity].
  destruct s as [|c s]; [reflexivity|].
  simpl in H. unfold HASH in H. simpl.
  now rewrite (N.eqb_sym 35 c), H.
Qed.

Lemma re_h2_heading_like : heading_like re_h2.
Proof.
  intros p s H. unfold exec_at, re_h2. simpl.
  destruct (at_bol p); [|reflexivity].
  destruct s as [|c s]; [reflexivity|].
  simpl in H. unfold HASH in H. simpl.
  now rewrite (N.eqb_sym 35 c), H.
Qed.

Lemma re_h1_heading_like : heading_like re_h1.
Proof.
  intros p s H. unfold exec_at, re_h1. simpl.
  destruct (at_bol p); [|reflexivity].
  destruct s as [|c s]; [reflexivity|].
  simpl in H. unfold HASH in H. simpl.
  now rewrite (N.eqb_sym 35 c), H.
Qed.

(** A text none of whose lines begins with [#] goes through a heading pass
    unchanged. *)
Lemma replace_from_heading_id (r : regex) (t : template) :
  heading_like r ->
  forall s p, hash_line_from (at_bol p) s = false -> replace_from r t p O s = s.
Proof.
  intros Hr; induction s as [|c s IH]; intros p H; simpl.
  - now rewrite Hr by (simpl; apply andb_false_r).
  - simpl in H. apply orb_false_iff in H as [H1 H2].
    rewrite Hr by exact H1.
    f_equal. apply IH. exact H2.
Qed.

Lemma replace_heading_id (r : regex) (t : template) (s : jsstring) :
  heading_like r -> has_hash_line s = false -> replace r t s = s.
Proof. intros Hr H. unfold replace. now apply replace_from_heading_id. Qed.

(** [/\n$/m] at one position: an LF at the end of the input or before a
    line terminator, and nothing else. *)
Lemma exec_at_re_br (p : option char) (s : jsstring) :
  exec_at re_br p s =
  match s with
  | c :: s' =>
      if (c =? LF)%N && at_eol s' then Some (MState (Some c) s' None) else None
  | [] => None
  end.
Proof.
  unfold exec_at, re_br; simpl.
  destruct s as [|c s]; [reflexivity|].
  rewrite (N.eqb_sym LF c).
  destruct (c =? LF)%N; simpl; [|reflexivity].
  destruct (at_eol s); reflexivity.
Qed.

Lemma replace_from_re_br (s : jsstring) :
  forall p, replace_from re_br tpl_br p O s = line_breaks s.
Proof.
  induction s as [|c s IH]; intros p.
  - reflexivity.
  - cbn [replace_from line_breaks]. rewrite exec_at_re_br.
    destruct ((c =? LF)%N && at_eol s).
    + cbn [after cap1].
      replace (List.length (c :: s) - List.length s) with 1 by (cbn [List.length]; lia).
      cbn [replace_from]. rewrite IH. reflexivity.
    + now rewrite IH.
Qed.

Lemma line_breaks_id (s : jsstring) :
  has_closing_newline s = false -> line_breaks s = s.
Proof.
  induction s as [|c s IH]; simpl; intros H.
  - reflexivity.
  - apply orb_false_iff in H as [H1 H2].
    rewrite H1. now rewrite IH.
Qed.

(** *** The capture [(.*$)]: the rest of the line *)

Lemma line_tail_length (s : jsstring) :
  List.length (line_tail s) <= List.length s.
Proof.
  induction s as [|c s IH]; simpl.
  - constructor.
  - destruct (isLineTerminator c); simpl; lia.
Qed.

Lemma firstn_line_head (s : jsstring) :
  firstn (List.length s - List.length (line_tail s)) s = line_head s.
Proof.
  induction s as [|c s IH]; cbn [line_head line_tail].
  - reflexivity.
  - destruct (isLineTerminator c).
    + now rewrite Nat.sub_diag.
    + pose proof (line_tail_length s) as Hl.
      cbn [List.length].
      replace (S (List.length s) - List.length (line_tail s))
        with (S (List.length s - List.length (line_tail s))) by lia.
      cbn [firstn]. f_equal. exact IH.
Qed.

(** The greedy [.*] followed by [$] stops at the end of the line and
    nowhere before: at any earlier position [$] fails. *)
Lemma star_dot_eol (k : cont) (cap : option jsstring) (s : jsstring) :
  forall p,
    star_atom Dot p s cap (fun st => if at_eol (after st) then k st else None) =
    k (MState (line_prev p s) (line_tail s) cap).
Proof.
  induction s as [|c s IH]; intros p; simpl.
  - reflexivity.
  - destruct (isLineTerminator c) eqn:E; simpl.
    + reflexivity.
    + rewrite IH.
      now destruct (k (MState (line_prev (Some c) s) (line_tail s) cap)).
Qed.

Ltac heading_exec :=
  unfold exec_at; simpl;
  match goal with H : at_bol _ = true |- _ => rewrite H end;
  rewrite star_dot_eol; cbn [after prev cap1];
  now rewrite firstn_line_head.

(** At the beginning of a line, the marker and its space match and the
    capture is the rest of the line. *)
Lemma exec_at_re_h3 (p : option char) (s : jsstring) :
  at_bol p = true ->
  exec_at re_h3 p (str "### " ++ s) =
  Some (MState (line_prev (Some SPACE) s) (line_tail s) (Some (line_head s))).
Proof. intros H. heading_exec. Qed.

Lemma exec_at_re_h2 (p : option char) (s : jsstring) :
  at_bol p = true ->
  exec_at re_h2 p (str "## " ++ s) =
  Some (MState (line_prev (Some SPACE) s) (line_tail s) (Some (line_head s))).
Proof. intros H. heading_exec. Qed.

Lemma exec_at_re_h1 (p : option char) (s : jsstring) :
  at_bol p = true ->
  exec_at re_h1 p (str "# " ++ s) =
  Some (MState (line_prev (Some SPACE) s) (line_tail s) (Some (line_head s))).
Proof. intros H. heading_exec. Qed.

(** *** One heading line *)

(** Where the pattern does not match, the code unit is copied. *)
Lemma replace_from_copy (r : regex) (t : template) (p : option char)
      (c : char) (s : jsstring) :
  exec_at r p (c :: s) = None ->
  replace_from r t p O (c :: s) = c :: replace_from r t (Some c) O s.
Proof. intros H. cbn [replace_from]. now rewrite H. Qed.

(** Inside a line a heading pass copies the text. *)
Lemma replace_from_inside_line (r : regex) (t : template) :
  heading_like r ->
  forall s p,
    at_bol p = false -> one_line s = true -> replace_from r t p O s = s.
Proof.
  intros Hr; induction s as [|c s IH]; intros p Hp Hs; simpl.
  - now rewrite Hr by (now rewrite Hp).
  - rewrite Hr by (now rewrite Hp).
    simpl in Hs. apply andb_true_iff in Hs as [Hc Hs].
    f_equal. apply IH; [|exact Hs].
    simpl. now apply negb_true_iff.
Qed.

(** The units of a match are passed over without being copied. *)
Lemma replace_from_skip_all (r : regex) (t : template) :
  heading_like r ->
  forall s p, replace_from r t p (List.length s) s = [].
Proof.
  intros Hr; induction s as [|c s IH]; intros p; simpl.
  - now rewrite Hr by apply andb_false_r.
  - apply IH.
Qed.

Lemma one_line_tail (s : jsstring) : one_line s = true -> line_tail s = [].
Proof.
  induction s as [|c s IH]; simpl; intros H.
  - reflexivity.
  - apply andb_true_iff in H as [Hc Hs].
    apply negb_true_iff in Hc. rewrite Hc. auto.
Qed.

Lemma one_line_head (s : jsstring) : one_line s = true -> line_head s = s.
Proof.
  induction s as [|c s IH]; simpl; intros H.
  - reflexivity.
  - apply andb_true_iff in H as [Hc Hs].
    apply negb_true_iff in Hc. rewrite Hc. now rewrite IH.
Qed.

Lemma one_line_no_closing_newline (s : jsstring) :
  one_line s = true -> has_closing_newline s = false.
Proof.
  induction s as [|c s IH]; simpl; intros H.
  - reflexivity.
  - apply andb_true_iff in H as [Hc Hs].
    rewrite (IH Hs), orb_false_r.
    destruct (c =? LF)%N eqn:E; [|reflexivity].
    apply N.eqb_eq in E; subst c. discriminate Hc.
Qed.

Lemma one_line_app (s1 s2 : jsstring) :
  one_line (s1 ++ s2) = one_line s1 && one_line s2.
Proof. apply forallb_app. Qed.

(** The level-1 pass on a single line [# t]. *)
Lemma replace_re_h1_line (t : jsstring) :
  one_line t = true ->
  replace re_h1 tpl_h1 (str "# " ++ t) =
  open_tag "h1" "neon-title" ++ t ++ str "</h1>".
Proof.
  intros Ht. unfold replace.
  change (str "# " ++ t) with (HASH :: SPACE :: t).
  cbn [replace_from].
  change (HASH :: SPACE :: t) with (str "# " ++ t) at 1.
  rewrite exec_at_re_h1 by reflexivity.
  cbn [after cap1]. rewrite (one_line_tail _ Ht), (one_line_head _ Ht).
  cbn [List.length Nat.sub].
  change (replace_from re_h1 tpl_h1 (Some HASH) (S (List.length t)) (SPACE :: t))
    with (replace_from re_h1 tpl_h1 (Some SPACE) (List.length t) t).
  rewrite (replace_from_skip_all tpl_h1 re_h1_heading_like).
  unfold tpl_h1, substitute. simpl.
  now rewrite !app_nil_r.
Qed.

(** A single line [# t] is rendered as the level-1 heading around [t],
    whatever [t] contains. *)
Lemma renderedMd_h1_line (t : jsstring) :
  one_line t = true ->
  renderedMd (str "# " ++ t) = open_tag "h1" "neon-title" ++ t ++ str "</h1>".
Proof.
  intros Ht. unfold renderedMd.
  assert (H3 : replace re_h3 tpl_h3 (str "# " ++ t) = str "# " ++ t).
  { unfold replace. change (str "# " ++ t) with (HASH :: SPACE :: t).
    rewrite replace_from_copy by reflexivity.
    f_equal. apply (replace_from_inside_line tpl_h3 re_h3_heading_like).
    - reflexivity.
    - exact Ht. }
  assert (H2 : replace re_h2 tpl_h2 (str "# " ++ t) = str "# " ++ t).
  { unfold replace. change (str "# " ++ t) with (HASH :: SPACE :: t).
    rewrite replace_from_copy by reflexivity.
    f_equal. apply (replace_from_inside_line tpl_h2 re_h2_heading_like).
    - reflexivity.
    - exact Ht. }
  rewrite H3, H2, (@replace_re_h1_line t Ht).
  unfold replace. rewrite replace_from_re_br.
  apply line_breaks_id, one_line_no_closing_newline.
  rewrite !one_line_app, Ht. reflexivity.
Qed.

(* ================================================================== *)
(** ** PreviewPage: the computed [renderedMd] *)
(* ================================================================== *)

(** C2, as the code has it.  The line-break pass replaces every LF that is
    the last code unit or stands just before a line terminator, and keeps
    every other code unit; so a text in which no line begins with [#] and
    no LF is last or stands before a line terminator is rendered
    unchanged. *)
Theorem renderedMd_line_break_rule :
  (forall s, replace re_br tpl_br s = line_breaks s) /\
  (forall x,
      has_hash_line x = false -> has_closing_newline x = false ->
      renderedMd x = x).
Proof.
  split.
  - intros s. apply replace_from_re_br.
  - intros x Hh Hn. unfold renderedMd.
    rewrite (@replace_heading_id re_h3 tpl_h3 x re_h3_heading_like Hh).
    rewrite (@replace_heading_id re_h2 tpl_h2 x re_h2_heading_like Hh).
    rewrite (@replace_heading_id re_h1 tpl_h1 x re_h1_heading_like Hh).
    unfold replace. rewrite replace_from_re_br.
    now apply line_breaks_id.
Qed.

(** Two plain lines separated by one LF are left as they are. *)
Lemma renderedMd_line_break_rule_witness :
  has_hash_line (str "a" ++ [LF] ++ str "b") = false /\
  has_closing_newline (str "a" ++ [LF] ++ str "b") = false /\
  renderedMd (str "a" ++ [LF] ++ str "b") = str "a" ++ [LF] ++ str "b".
Proof.
  split; [reflexivity|]. split; [reflexivity|].
  apply (proj2 renderedMd_line_break_rule); reflexivity.
Defined.

(** C2, as the claim has it, fails on a blank line: the text has no line
    beginning with [#] and does not end in LF, yet the LF before the blank
    line, in the middle of the text, is replaced. *)
Lemma renderedMd_breaks_before_blank_line :
  has_hash_line (str "a" ++ [LF; LF] ++ str "b") = false /\
  ends_with_newline (str "a" ++ [LF; LF] ++ str "b") = false /\
  renderedMd (str "a" ++ [LF; LF] ++ str "b") = str "a<br/>" ++ [LF] ++ str "b" /\
  renderedMd (str "a" ++ [LF; LF] ++ str "b") <> str "a" ++ [LF; LF] ++ str "b".
Proof.
  split; [reflexivity|]. split; [reflexivity|]. split; [reflexivity|].
  vm_compute. discriminate.
Qed.

(** The initial text of the page: both blank lines give a line break. *)
Example renderedMd_md :
  renderedMd md =
  open_tag "h1" "neon-title" ++ str "T" ++ [237%N] ++ str "tulo</h1><br/>" ++ [LF] ++
  open_tag "h2" "neon-subtitle" ++ str "Subt" ++ [237%N] ++ str "tulo</h2><br/>" ++ [LF] ++
  str "Contenido...".
Proof. vm_compute. reflexivity. Qed.

(** Two LF at the end of the text are both replaced. *)
Example renderedMd_two_trailing_newlines :
  renderedMd (str "a" ++ [LF; LF]) = str "a<br/><br/>".
Proof. vm_compute. reflexivity. Qed.

Example renderedMd_empty : renderedMd [] = [].
Proof. reflexivity. Qed.

Example renderedMd_title :
  renderedMd (str "# Title") = open_tag "h1" "neon-title" ++ str "Title</h1>".
Proof. vm_compute. reflexivity. Qed.

(** C3.  The heading passes run in the order [###], [##], [#], before the
    line-break pass; on the three-line text each pass rewrites the line of
    its own level and leaves the other lines alone, and the result is the
    three headings of levels 3, 2 and 1 around [Sub], [Mid] and [Top]. *)
Theorem renderedMd_three_headings :
  (forall x,
      renderedMd x =
      replace re_br tpl_br
        (replace re_h1 tpl_h1 (replace re_h2 tpl_h2 (replace re_h3 tpl_h3 x)))) /\
  replace re_h3 tpl_h3 (str "### Sub" ++ [LF] ++ str "## Mid" ++ [LF] ++ str "# Top") =
    open_tag "h3" "neon-subtitle" ++ str "Sub</h3>" ++ [LF] ++
    str "## Mid" ++ [LF] ++ str "# Top" /\
  replace re_h2 tpl_h2
    (replace re_h3 tpl_h3 (str "### Sub" ++ [LF] ++ str "## Mid" ++ [LF] ++ str "# Top")) =
    open_tag "h3" "neon-subtitle" ++ str "Sub</h3>" ++ [LF] ++
    open_tag "h2" "neon-subtitle" ++ str "Mid</h2>" ++ [LF] ++ str "# Top" /\
  renderedMd (str "### Sub" ++ [LF] ++ str "## Mid" ++ [LF] ++ str "# Top") =
    open_tag "h3" "neon-subtitle" ++ str "Sub</h3>" ++ [LF] ++
    open_tag "h2" "neon-subtitle" ++ str "Mid</h2>" ++ [LF] ++
    open_tag "h1" "neon-title" ++ str "Top</h1>".
Proof.
  split; [reflexivity|].
  split; [vm_compute; reflexivity|].
  split; vm_compute; reflexivity.
Qed.

(* ================================================================== *)
(** ** PreviewPage: the mount hook *)
(* ================================================================== *)

Lemma mount_uml_fails (m : Mermaid) (st : refs) :
  mermaid_fails m ->
  (exists e, mount_uml (Some m) st = Throw e) \/ mount_uml (Some m) st = Return st.
Proof.
  intros Hf. unfold mount_uml.
  destruct (umlEl st) as [c|]; [left | now right].
  destruct Hf as [[e He] | (u & e & Hi & Hr)].
  - exists e. now rewrite He.
  - exists e. rewrite Hi. simpl. now rewrite Hr.
Qed.

Lemma onMounted_total (wm : option Mermaid) (st : refs) :
  exists st', onMounted wm st = Return st'.
Proof.
  unfold onMounted.
  destruct (mount_uml wm st) as [st1|e]; simpl.
  - destruct (ganttEl st1); eauto.
  - destruct (ganttEl st); eauto.
Qed.

(** C8, as the code has it.  The callback never throws.  When the
    collaborator is absent and the diagram element is mounted, the element
    shows the source text of the diagram verbatim.  When the collaborator
    throws, the exception is swallowed and the diagram element is left as
    it was. *)
Theorem onMounted_failure_modes :
  (forall wm st, exists st', onMounted wm st = Return st') /\
  (forall st c,
      umlEl st = Some c ->
      exists st', onMounted None st = Return st' /\
                  umlEl st' = Some (PlainText code)) /\
  (forall m st,
      mermaid_fails m ->
      exists st', onMounted (Some m) st = Return st' /\ umlEl st' = umlEl st).
Proof.
  split; [exact onMounted_total|]. split.
  - intros st c Hc. unfold onMounted, mount_uml. rewrite Hc. simpl.
    destruct (ganttEl st); eexists; split; reflexivity.
  - intros m st Hf. unfold onMounted.
    destruct (@mount_uml_fails m st Hf) as [[e He] | Hr].
    + rewrite He. simpl. destruct (ganttEl st); eexists; split; reflexivity.
    + rewrite Hr. simpl. destruct (ganttEl st); eexists; split; reflexivity.
Qed.

(** A rejected [render] with both elements mounted. *)
Lemma onMounted_failure_modes_witness :
  mermaid_fails rejecting_mermaid /\
  exists st', onMounted (Some rejecting_mermaid) mounted_refs = Return st' /\
              umlEl st' = umlEl mounted_refs.
Proof.
  assert (H : mermaid_fails rejecting_mermaid).
  { right. exists tt. eexists. split; reflexivity. }
  split; [exact H|].
  apply (proj2 (proj2 onMounted_failure_modes)). exact H.
Defined.

(** C8, as the claim has it, fails when [render] is rejected: the mounted
    diagram element stays empty, the source text is not shown. *)
Lemma onMounted_rejected_render_shows_nothing :
  mermaid_fails rejecting_mermaid /\
  onMounted (Some rejecting_mermaid) mounted_refs =
    Return (Refs (Some (Markup [])) (Some (Markup gantt_placeholder))) /\
  Some (Markup []) <> Some (PlainText code).
Proof.
  split.
  - right. exists tt. eexists. split; reflexivity.
  - split; [reflexivity | discriminate].
Qed.

(** The same when [initialize] throws. *)
Example onMounted_broken_initialize :
  onMounted (Some broken_mermaid) mounted_refs =
  Return (Refs (Some (Markup [])) (Some (Markup gantt_placeholder))).
Proof. reflexivity. Qed.

(** Without a collaborator the mounted element shows the source text. *)
Example onMounted_absent :
  onMounted None mounted_refs =
  Return (Refs (Some (PlainText code)) (Some (Markup gantt_placeholder))).
Proof. reflexivity. Qed.

(* ================================================================== *)
(** ** HomePage: the JSON editor *)
(* ================================================================== *)

(** C7.  Whatever [JSON.parse] does on the text, [parsed], [isValid] and
    the watcher return normally; the watcher leaves either the empty
    message or the literal one; and when [JSON.parse] throws, the validity
    flag is [false] and the message is the literal one. *)
Theorem editor_parse_failure_contained
  (JSON_parse : jsstring -> outcome JSON) (raw errorMsg : jsstring) :
  (exists v, parsed JSON_parse raw = Return v) /\
  (exists b, isValid JSON_parse raw = Return b) /\
  (exists m, watch_raw JSON_parse raw errorMsg = Return m /\
             (m = [] \/ m = invalid_message)) /\
  (forall e, JSON_parse raw = Throw e ->
             parsed JSON_parse raw = Return JNull /\
             isValid JSON_parse raw = Return false /\
             watch_raw JSON_parse raw errorMsg = Return invalid_message) /\
  (forall v, JSON_parse raw = Return v ->
             parsed JSON_parse raw = Return v /\
             isValid JSON_parse raw = Return (not_null v) /\
             watch_raw JSON_parse raw errorMsg = Return []).
Proof.
  unfold isValid, parsed, watch_raw.
  destruct (JSON_parse raw) as [v|e]; simpl.
  - split; [now exists v|]. split; [now exists (not_null v)|].
    split; [exists []; auto|]. split.
    + intros e E; discriminate E.
    + intros v' E; injection E as <-. auto.
  - split; [now exists JNull|]. split; [now exists false|].
    split; [exists invalid_message; auto|]. split.
    + intros e' _. auto.
    + intros v E; discriminate E.
Qed.

(** A text on which the parse function throws. *)
Lemma editor_parse_failure_contained_witness :
  parse_literal_name (str "{") = Throw (SyntaxError (str "Unexpected token")) /\
  isValid parse_literal_name (str "{") = Return false /\
  watch_raw parse_literal_name (str "{") [] = Return invalid_message.
Proof.
  split; [reflexivity|].
  destruct (editor_parse_failure_contained parse_literal_name (str "{") [])
    as (_ & _ & _ & H & _).
  destruct (H (SyntaxError (str "Unexpected token")) eq_refl) as (_ & Hv & Hw).
  split; assumption.
Defined.

(** The text [null] parses, and the editor shows it as invalid with an
    empty message. *)
Example editor_null :
  isValid parse_literal_name (str "null") = Return false /\
  watch_raw parse_literal_name (str "null") invalid_message = Return [].
Proof. split; reflexivity. Qed.

(* ================================================================== *)
(** ** RunsPage: the status cell *)
(* ================================================================== *)

Lemma strictEquals_eq (a b : jsstring) : strictEquals a b = true <-> a = b.
Proof.
  revert b; induction a as [|x a IH]; intros [|y b]; simpl; split;
    try discriminate; try reflexivity.
  - intros H. apply andb_true_iff in H as [Hx Ha].
    apply N.eqb_eq in Hx. apply IH in Ha. now subst.
  - intros E. injection E as -> ->.
    rewrite N.eqb_refl. now apply IH.
Qed.

Lemma strictEquals_neq (a b : jsstring) : strictEquals a b = false <-> a <> b.
Proof.
  split.
  - intros H E. apply strictEquals_eq in E. congruence.
  - intros H. destruct (strictEquals a b) eqn:E; [|reflexivity].
    apply strictEquals_eq in E. contradiction.
Qed.

Ltac absurd_text :=
  let H := fresh "H" in intros H; vm_compute in H; discriminate H.

(** X1.  [statusClass] gives the passed class exactly on the string
    [PASSED], the failed class exactly on the string [FAILED], and the
    running class on everything else: any other string (the lower-case
    [passed] too) and the missing property. *)
Theorem statusClass_cases (s : option jsstring) :
  (statusClass s = str "neon-tag--passed" <-> s = Some (str "PASSED")) /\
  (statusClass s = str "neon-tag--failed" <-> s = Some (str "FAILED")) /\
  (statusClass s = str "neon-tag--running" <->
   s <> Some (str "PASSED") /\ s <> Some (str "FAILED")).
Proof.
  destruct s as [v|]; unfold statusClass.
  - destruct (strictEquals v (str "PASSED")) eqn:E1.
    { apply strictEquals_eq in E1; subst v.
      split; [split; reflexivity|].
      split; [split; absurd_text|].
      split; [absurd_text | intros [H _]; now contradiction H]. }
    destruct (strictEquals v (str "FAILED")) eqn:E2.
    { apply strictEquals_eq in E2; subst v.
      split; [split; absurd_text|].
      split; [split; reflexivity|].
      split; [absurd_text | intros [_ H]; now contradiction H]. }
    apply strictEquals_neq in E1, E2.
    split; [split; [absurd_text | intros E; injection E as ->; now contradiction E1]|].
    split; [split; [absurd_text | intros E; injection E as ->; now contradiction E2]|].
    split; [|reflexivity].
    intros _; split; intros E; injection E as ->; [now apply E1 | now apply E2].
  - split; [split; [absurd_text | discriminate]|].
    split; [split; [absurd_text | discriminate]|].
    split; [intros _; split; discriminate | reflexivity].
Qed.

Example status_cell_class_lowercase :
  status_cell_class [ (str "id", str "a1"); (str "status", str "passed") ] =
  str "neon-tag--running".
Proof. reflexivity. Qed.

Example status_cell_class_missing :
  status_cell_class [ (str "id", str "a1") ] = str "neon-tag--running".
Proof. reflexivity. Qed.

(* ================================================================== *)
(** ** RunsPage: refining the query *)
(* ================================================================== *)

Lemma Substring_refl (s : jsstring) : Substring s s.
Proof. exists [], []. now rewrite app_nil_r. Qed.

Lemma Substring_trans (a b c : jsstring) :
  Substring a b -> Substring b c -> Substring a c.
Proof.
  intros (p1 & s1 & ->) (p2 & s2 & ->).
  exists (p2 ++ p1), (s1 ++ s2). now rewrite <- !app_assoc.
Qed.

Lemma Substring_app_l (a pre s : jsstring) :
  Substring a s -> Substring a (pre ++ s).
Proof.
  intros (p1 & s1 & ->). exists (pre ++ p1), s1. now rewrite <- app_assoc.
Qed.

Lemma Substring_app_r (a s post : jsstring) :
  Substring a s -> Substring a (s ++ post).
Proof.
  intros (p1 & s1 & ->). exists p1, (s1 ++ post). now rewrite <- !app_assoc.
Qed.

Lemma Substring_map (f : char -> char) (a s : jsstring) :
  Substring a s -> Substring (map f a) (map f s).
Proof.
  intros (p1 & s1 & ->). exists (map f p1), (map f s1).
  now rewrite !map_app.
Qed.

Lemma Substring_In (a s : jsstring) (c : char) :
  Substring a s -> In c a -> In c s.
Proof.
  intros (p1 & s1 & ->) H. apply in_or_app. right.
  apply in_or_app. now left.
Qed.

Lemma filter_narrow {A : Type} (f g : A -> bool) (l : list A) :
  (forall x, g x = true -> f x = true) ->
  List.filter g (List.filter f l) = List.filter g l.
Proof.
  intros Hfg; induction l as [|x l IH]; simpl.
  - reflexivity.
  - destruct (f x) eqn:Ef; simpl.
    + now rewrite IH.
    + destruct (g x) eqn:Eg; [|exact IH].
      apply Hfg in Eg. congruence.
Qed.

(** X2.  When the lower-cased query [q1] occurs in the lower-cased query
    [q2], the result for [q2] is obtained by filtering the result for [q1]
    again, and is a subsequence of it: a longer query only narrows what is
    shown. *)
Theorem filtered_refines
  (toLowerCase : jsstring -> jsstring) (R : list Row) (q1 q2 : jsstring) :
  Substring (toLowerCase q1) (toLowerCase q2) ->
  filtered toLowerCase R q2 = filtered toLowerCase (filtered toLowerCase R q1) q2 /\
  Subseq (filtered toLowerCase R q2) (filtered toLowerCase R q1).
Proof.
  intros Hq.
  assert (E : filtered toLowerCase R q2 =
              filtered toLowerCase (filtered toLowerCase R q1) q2).
  { unfold filtered; cbv zeta. symmetry. apply filter_narrow.
    intros r Hr. apply includes_occurrence in Hr. apply includes_occurrence.
    exact (Substring_trans Hq Hr). }
  split; [exact E|].
  rewrite E. unfold filtered at 1; cbv zeta. apply filter_Subseq.
Qed.

Lemma filtered_refines_witness :
  Substring (toLowerCase_ascii (str "fa")) (toLowerCase_ascii (str "FAIL")) /\
  filtered toLowerCase_ascii rows (str "FAIL") =
    filtered toLowerCase_ascii (filtered toLowerCase_ascii rows (str "fa")) (str "FAIL") /\
  Subseq (filtered toLowerCase_ascii rows (str "FAIL"))
         (filtered toLowerCase_ascii rows (str "fa")).
Proof.
  assert (H : Substring (toLowerCase_ascii (str "fa")) (toLowerCase_ascii (str "FAIL"))).
  { exists [], (str "il"). reflexivity. }
  split; [exact H|].
  apply (@filtered_refines toLowerCase_ascii rows (str "fa") (str "FAIL")). exact H.
Defined.

(* ================================================================== *)
(** ** [JSON.stringify]: what the serialized text is made of *)
(* ================================================================== *)

Lemma has_control_app (a b : jsstring) :
  has_control (a ++ b) = has_control a || has_control b.
Proof. apply existsb_app. Qed.

Lemma has_control_cons (c : char) (s : jsstring) :
  has_control (c :: s) = (c <? 32)%N || has_control s.
Proof. reflexivity. Qed.

Lemma is_ascii_app (a b : jsstring) :
  is_ascii (a ++ b) = is_ascii a && is_ascii b.
Proof. apply forallb_app. Qed.

Lemma ascii_not_lead (c : char) : (c <? 128)%N = true -> isLeadSurrogate c = false.
Proof.
  intros H. apply N.ltb_lt in H. unfold isLeadSurrogate.
  apply andb_false_iff. left. apply N.leb_gt. lia.
Qed.

Lemma ascii_not_trail (c : char) : (c <? 128)%N = true -> isTrailSurrogate c = false.
Proof.
  intros H. apply N.ltb_lt in H. unfold isTrailSurrogate.
  apply andb_false_iff. left. apply N.leb_gt. lia.
Qed.

Lemma hexDigit_bounds (n : N) : (n < 16)%N -> (48 <= hexDigit n < 128)%N.
Proof.
  intros H. unfold hexDigit.
  destruct (N.ltb_spec n 10); lia.
Qed.

Lemma unicodeEscape_bounds (c d : char) :
  In d (unicodeEscape c) -> (32 <= d < 128)%N.
Proof.
  unfold unicodeEscape, BACKSLASH. simpl.
  assert (H16 : forall x, (x mod 16 < 16)%N) by (intros x; now apply N.mod_lt).
  intros [<-|[<-|[<-|[<-|[<-|[<-|[]]]]]]]; try lia;
    match goal with |- context [hexDigit ?n] =>
      pose proof (@hexDigit_bounds n (H16 _)); lia end.
Qed.

(** A plain unit is copied. *)
Lemma quoteUnit_plain (c : char) :
  (32 <=? c)%N && (c <? 128)%N && negb (c =? DQUOTE)%N && negb (c =? BACKSLASH)%N = true ->
  quoteUnit c = [c].
Proof.
  intros H. repeat (apply andb_true_iff in H as [H ?]).
  apply N.leb_le in H.
  unfold quoteUnit.
  rewrite (ascii_not_lead c), (ascii_not_trail c) by assumption.
  repeat match goal with
         | Hn : negb _ = true |- _ => apply negb_true_iff in Hn; rewrite Hn
         end.
  replace (c =? 8)%N with false by (symmetry; apply N.eqb_neq; lia).
  replace (c =? 9)%N with false by (symmetry; apply N.eqb_neq; lia).
  replace (c =? 10)%N with false by (symmetry; apply N.eqb_neq; lia).
  replace (c =? 12)%N with false by (symmetry; apply N.eqb_neq; lia).
  replace (c =? 13)%N with false by (symmetry; apply N.eqb_neq; lia).
  replace (c <? 32)%N with false by (symmetry; apply N.ltb_ge; lia).
  reflexivity.
Qed.

(** Every unit written for one unit is printable, and ASCII when the unit
    is. *)
Lemma quoteUnit_bounds (c d : char) :
  In d (quoteUnit c) -> (32 <= d)%N /\ ((c < 128)%N -> (d < 128)%N).
Proof.
  unfold quoteUnit, BACKSLASH, DQUOTE.
  repeat match goal with
         | |- context [if (?a =? ?b)%N then _ else _] => destruct (a =? b)%N
         end;
    try (simpl; intros [<-|[<-|[]]]; split; intros; lia).
  destruct ((c <? 32)%N || isLeadSurrogate c || isTrailSurrogate c) eqn:E.
  - intros H. apply unicodeEscape_bounds in H. split; intros; lia.
  - apply orb_false_iff in E as [E _]. apply orb_false_iff in E as [E _].
    apply N.ltb_ge in E.
    simpl; intros [<-|[]]. split; intros; lia.
Qed.

Lemma quoteUnits_plain (s : jsstring) : plain s = true -> quoteUnits s = s.
Proof.
  induction s as [|c s IH]; simpl; intros H.
  - reflexivity.
  - apply andb_true_iff in H as [Hc Hs].
    rewrite (quoteUnit_plain c Hc).
    repeat (apply andb_true_iff in Hc as [Hc ?]).
    rewrite (ascii_not_lead c) by assumption.
    simpl. now rewrite IH.
Qed.

Lemma quoteUnits_ascii (s : jsstring) :
  is_ascii s = true -> is_ascii (quoteUnits s) = true.
Proof.
  induction s as [|c s IH]; simpl; intros H.
  - reflexivity.
  - apply andb_true_iff in H as [Hc Hs].
    rewrite (ascii_not_lead c Hc).
    unfold is_ascii. rewrite forallb_app. apply andb_true_iff. split.
    + apply forallb_forall. intros d Hd.
      apply quoteUnit_bounds in Hd as [_ Hd].
      apply N.ltb_lt, Hd. now apply N.ltb_lt.
    + now apply IH.
Qed.

(** No control character is written, whatever the string. *)
Lemma quoteUnits_printable_upto (n : nat) :
  forall s, List.length s <= n -> has_control (quoteUnits s) = false.
Proof.
  induction n as [|n IH]; intros s Hn.
  - destruct s; [reflexivity | simpl in Hn; lia].
  - destruct s as [|c s]; [reflexivity|].
    simpl in Hn. cbn [quoteUnits].
    assert (Hesc : has_control (unicodeEscape c) = false).
    { unfold has_control. apply not_true_is_false. intros H.
      apply existsb_exists in H as (d & Hd & Hlt).
      apply unicodeEscape_bounds in Hd. apply N.ltb_lt in Hlt. lia. }
    assert (Hone : has_control (quoteUnit c) = false).
    { unfold has_control. apply not_true_is_false. intros H.
      apply existsb_exists in H as (d & Hd & Hlt).
      apply quoteUnit_bounds in Hd as [Hd _]. apply N.ltb_lt in Hlt. lia. }
    destruct (isLeadSurrogate c) eqn:El.
    + destruct s as [|d s]; [exact Hesc|].
      destruct (isTrailSurrogate d) eqn:Et.
      * rewrite !has_control_cons.
        rewrite IH by (simpl in Hn; lia).
        unfold isLeadSurrogate in El. unfold isTrailSurrogate in Et.
        apply andb_true_iff in El as [El _]. apply andb_true_iff in Et as [Et _].
        apply N.leb_le in El, Et.
        replace (c <? 32)%N with false by (symmetry; apply N.ltb_ge; lia).
        replace (d <? 32)%N with false by (symmetry; apply N.ltb_ge; lia).
        reflexivity.
      * rewrite !has_control_app.
        rewrite Hesc, IH by lia. reflexivity.
    + rewrite !has_control_app.
      rewrite Hone, IH by lia. reflexivity.
Qed.

Lemma quoteUnits_printable (s : jsstring) : has_control (quoteUnits s) = false.
Proof. now apply (@quoteUnits_printable_upto (List.length s) s). Qed.

Lemma quoteJSONString_ascii (s : jsstring) :
  is_ascii s = true -> is_ascii (quoteJSONString s) = true.
Proof.
  intros H. unfold quoteJSONString, is_ascii.
  rewrite !forallb_app. fold (is_ascii (quoteUnits s)).
  now rewrite quoteUnits_ascii.
Qed.

Lemma quoteJSONString_printable (s : jsstring) :
  has_control (quoteJSONString s) = false.
Proof.
  unfold quoteJSONString, has_control.
  rewrite !existsb_app. fold (has_control (quoteUnits s)).
  now rewrite quoteUnits_printable.
Qed.

Lemma member_ascii (kv : jsstring * jsstring) :
  is_ascii (fst kv) && is_ascii (snd kv) = true -> is_ascii (member kv) = true.
Proof.
  intros H. apply andb_true_iff in H as [Hk Hv].
  unfold member. rewrite !is_ascii_app.
  now rewrite !quoteJSONString_ascii.
Qed.

Lemma member_printable (kv : jsstring * jsstring) :
  has_control (member kv) = false.
Proof.
  unfold member. rewrite !has_control_app.
  now rewrite !quoteJSONString_printable.
Qed.

Lemma join_comma_cons (x : jsstring) (l : list jsstring) :
  join_comma (x :: l) =
  match l with [] => x | _ :: _ => x ++ str "," ++ join_comma l end.
Proof. reflexivity. Qed.

Lemma join_comma_ascii (l : list jsstring) :
  forallb is_ascii l = true -> is_ascii (join_comma l) = true.
Proof.
  induction l as [|x l IH]; intros H.
  - reflexivity.
  - cbn [forallb] in H. apply andb_true_iff in H as [Hx Hl].
    rewrite join_comma_cons. destruct l as [|y l]; [exact Hx|].
    rewrite !is_ascii_app.
    now rewrite Hx, IH.
Qed.

Lemma join_comma_printable (l : list jsstring) :
  (forall x, In x l -> has_control x = false) -> has_control (join_comma l) = false.
Proof.
  induction l as [|x l IH]; intros H.
  - reflexivity.
  - rewrite join_comma_cons. destruct l as [|y l].
    + apply H. now left.
    + rewrite !has_control_app.
      rewrite (H x) by now left.
      rewrite IH by (intros z Hz; apply H; now right).
      reflexivity.
Qed.

Lemma join_comma_In (x : jsstring) (l : list jsstring) :
  In x l -> Substring x (join_comma l).
Proof.
  induction l as [|y l IH]; intros H.
  - contradiction.
  - rewrite join_comma_cons. destruct H as [->|H].
    + destruct l; [apply Substring_refl | apply Substring_app_r, Substring_refl].
    + destruct l as [|z l]; [contradiction|].
      apply Substring_app_l, Substring_app_l. now apply IH.
Qed.

Lemma JSON_stringify_ascii (r : Row) :
  ascii_row r = true -> is_ascii (JSON_stringify r) = true.
Proof.
  intros H. unfold JSON_stringify. rewrite !is_ascii_app.
  rewrite join_comma_ascii; [reflexivity|].
  apply forallb_forall. intros x Hx.
  apply in_map_iff in Hx as (kv & <- & Hkv).
  apply member_ascii.
  unfold ascii_row in H. rewrite forallb_forall in H. now apply H.
Qed.

Lemma JSON_stringify_printable (r : Row) :
  has_control (JSON_stringify r) = false.
Proof.
  unfold JSON_stringify. rewrite !has_control_app.
  rewrite join_comma_printable; [reflexivity|].
  intros x Hx. apply in_map_iff in Hx as (kv & <- & _).
  apply member_printable.
Qed.

(** The text of a row contains each of its members. *)
Lemma JSON_stringify_member (r : Row) (kv : jsstring * jsstring) :
  In kv r -> Substring (member kv) (JSON_stringify r).
Proof.
  intros H. unfold JSON_stringify.
  apply Substring_app_l, Substring_app_r, join_comma_In.
  now apply in_map.
Qed.

(* ================================================================== *)
(** ** RunsPage: what a query finds in ASCII rows *)
(* ================================================================== *)

Lemma asciiLower_control (c : char) : (c <? 32)%N = true -> asciiLower c = c.
Proof.
  intros H. apply N.ltb_lt in H. unfold asciiLower.
  replace (65 <=? c)%N with false by (symmetry; apply N.leb_gt; lia).
  reflexivity.
Qed.

Lemma asciiLower_printable (c : char) :
  (c <? 32)%N = false -> (asciiLower c <? 32)%N = false.
Proof.
  intros H. apply N.ltb_ge in H. apply N.ltb_ge. unfold asciiLower.
  destruct ((65 <=? c)%N && (c <=? 90)%N); lia.
Qed.

Lemma toLowerCase_ascii_printable (s : jsstring) :
  has_control s = false -> has_control (toLowerCase_ascii s) = false.
Proof.
  induction s as [|c s IH]; intros H.
  - reflexivity.
  - rewrite has_control_cons in H. apply orb_false_iff in H as [Hc Hs].
    unfold toLowerCase_ascii. cbn [map]. rewrite has_control_cons.
    fold (toLowerCase_ascii s).
    now rewrite (asciiLower_printable c Hc), IH.
Qed.

Lemma plain_value_in_member (k v : jsstring) :
  plain v = true -> Substring v (member (k, v)).
Proof.
  intros H. unfold member, quoteJSONString. cbn [fst snd].
  rewrite (quoteUnits_plain v H).
  apply Substring_app_l, Substring_app_l, Substring_app_l, Substring_app_r.
  apply Substring_refl.
Qed.


Section AsciiRows.

Variable toLowerCase : jsstring -> jsstring.

(** On ASCII text the engine lower-cases the letters [A]-[Z] and keeps
    every other code unit. *)
Hypothesis toLowerCase_on_ascii :
  forall s, is_ascii s = true -> toLowerCase s = toLowerCase_ascii s.

Lemma filtered_ascii_In (R : list Row) (q : jsstring) (r : Row) :
  ascii_row r = true -> is_ascii q = true ->
  (In r (filtered toLowerCase R q) <->
   In r R /\
   Substring (toLowerCase_ascii q) (toLowerCase_ascii (JSON_stringify r))).
Proof.
  intros Hr Hq. unfold filtered; cbv zeta.
  rewrite filter_In, includes_occurrence.
  rewrite (toLowerCase_on_ascii q Hq).
  rewrite (toLowerCase_on_ascii _ (JSON_stringify_ascii r Hr)).
  reflexivity.
Qed.

(** X3.  An ASCII row is found by any ASCII query that occurs, letter case
    aside, in one of its values, when that value has no double quote, no
    backslash and no control character (the characters [JSON.stringify]
    writes as escapes). *)
Theorem filtered_finds_value
  (R : list Row) (r : Row) (k v q : jsstring) :
  In r R -> ascii_row r = true -> In (k, v) r -> plain v = true ->
  is_ascii q = true ->
  Substring (toLowerCase_ascii q) (toLowerCase_ascii v) ->
  In r (filtered toLowerCase R q).
Proof.
  intros HR Hr Hkv Hv Hq Hsub.
  apply filtered_ascii_In; [assumption..|].
  split; [exact HR|].
  apply (Substring_trans Hsub). apply Substring_map.
  apply (Substring_trans (plain_value_in_member k v Hv)).
  now apply JSON_stringify_member.
Qed.


(** X5.  An ASCII query that holds a control character (a tab, a line
    feed) finds no ASCII row: the serialized text has escapes in their
    place. *)
Theorem filtered_control_query
  (R : list Row) (r : Row) (q : jsstring) :
  ascii_row r = true -> is_ascii q = true -> has_control q = true ->
  ~ In r (filtered toLowerCase R q).
Proof.
  intros Hr Hq Hc Hin.
  apply filtered_ascii_In in Hin as [_ Hsub]; [|assumption..].
  apply existsb_exists in Hc as (c & Hcq & Hlt).
  assert (Hl : In c (toLowerCase_ascii q)).
  { rewrite <- (asciiLower_control c Hlt). now apply in_map. }
  pose proof (@Substring_In _ _ c Hsub Hl) as Hj.
  pose proof (@toLowerCase_ascii_printable _ (JSON_stringify_printable r)) as Hp.
  assert (Ht : has_control (toLowerCase_ascii (JSON_stringify r)) = true).
  { apply existsb_exists. now exists c. }
  congruence.
Qed.

End AsciiRows.

Lemma filtered_finds_value_witness :
  In (nth 1 rows []) (filtered toLowerCase_ascii rows (str "ETA")).
Proof.
  apply (@filtered_finds_value toLowerCase_ascii (fun s _ => eq_refl)
           rows (nth 1 rows []) (str "name") (str "Beta") (str "ETA")).
  - right; left; reflexivity.
  - reflexivity.
  - right; left; reflexivity.
  - reflexivity.
  - reflexivity.
  - exists (str "b"), []. reflexivity.
Defined.


Lemma filtered_control_query_witness :
  ~ In (nth 0 rows []) (filtered toLowerCase_ascii rows (str "a" ++ [9%N] ++ str "1")).
Proof.
  apply (@filtered_control_query toLowerCase_ascii (fun s _ => eq_refl)
           rows (nth 0 rows []) (str "a" ++ [9%N] ++ str "1")); reflexivity.
Defined.

(** A value with a double quote is not found by its own text: the
    serialized value has a backslash before each quote. *)
Example filtered_quoted_value :
  filtered toLowerCase_ascii
    [ [ (str "name", str "say " ++ [DQUOTE] ++ str "hi" ++ [DQUOTE]) ] ]
    ([DQUOTE] ++ str "hi" ++ [DQUOTE]) = [].
Proof. vm_compute. reflexivity. Qed.

(* ================================================================== *)
(** ** PreviewPage: one heading pass on any text *)
(* ================================================================== *)

Unset Implicit Arguments.

Lemma line_head_tail (s : jsstring) : line_head s ++ line_tail s = s.
Proof.
  induction s as [|c s IH]; simpl.
  - reflexivity.
  - destruct (isLineTerminator c); simpl; [reflexivity | now rewrite IH].
Qed.

Lemma one_line_line_head (s : jsstring) : one_line (line_head s) = true.
Proof.
  induction s as [|c s IH]; simpl.
  - reflexivity.
  - destruct (isLineTerminator c) eqn:E; simpl; [reflexivity|].
    now rewrite E, IH.
Qed.

Lemma skipn_length_app (a b : jsstring) : skipn (List.length a) (a ++ b) = b.
Proof. induction a as [|x a IH]; simpl; [reflexivity | exact IH]. Qed.

Lemma firstn_length_app (a b : jsstring) : firstn (List.length a) (a ++ b) = a.
Proof. induction a as [|x a IH]; simpl; [reflexivity | now rewrite IH]. Qed.

Lemma last_unit_app (l1 l2 : jsstring) (p : option char) :
  last_unit (l1 ++ l2) p = last_unit l2 (last_unit l1 p).
Proof. apply fold_left_app. Qed.

Lemma at_bol_last_unit (l : jsstring) :
  one_line l = true -> l <> [] -> forall p, at_bol (last_unit l p) = false.
Proof.
  induction l as [|a l IH]; intros Hl Hne p; [contradiction|].
  simpl in Hl. apply andb_true_iff in Hl as [Ha Hl].
  destruct l as [|b l].
  - simpl. now apply negb_true_iff.
  - change (last_unit (a :: b :: l) p) with (last_unit (b :: l) (Some a)).
    apply IH; [exact Hl | discriminate].
Qed.

Lemma marker_line_from_cons (m : jsstring) (b : bool) (a : char) (s : jsstring) :
  marker_line_from m b (a :: s) =
  (b && startsWith m (a :: s)) || marker_line_from m (isLineTerminator a) s.
Proof. reflexivity. Qed.

Lemma marker_line_from_inside (m l s : jsstring) :
  one_line l = true ->
  marker_line_from m false (l ++ s) = marker_line_from m false s.
Proof.
  induction l as [|a l IH]; intros Hl.
  - reflexivity.
  - simpl in Hl. apply andb_true_iff in Hl as [Ha Hl].
    apply negb_true_iff in Ha.
    cbn [app]. rewrite marker_line_from_cons, Ha. cbn [andb orb].
    now apply IH.
Qed.

Lemma marker_line_from_weaken (m s : jsstring) :
  marker_line_from m true s = false -> marker_line_from m false s = false.
Proof.
  destruct s as [|a s]; simpl; intros H.
  - reflexivity.
  - now apply orb_false_iff in H as [_ H].
Qed.

Lemma marker_inv (m : jsstring) :
  marker m = true ->
  exists m0, m = HASH :: m0 /\ one_line m = true /\
             forallb (fun c => (c =? HASH)%N || (c =? SPACE)%N) m = true.
Proof.
  unfold marker. intros H. apply andb_true_iff in H as [H1 H2].
  destruct m as [|a m0]; [discriminate|].
  simpl in H1. apply N.eqb_eq in H1; subst a.
  exists m0. split; [reflexivity|]. split; [|exact H2].
  unfold one_line. apply forallb_forall. intros x Hx.
  rewrite forallb_forall in H2. specialize (H2 x Hx).
  apply orb_true_iff in H2 as [E|E]; apply N.eqb_eq in E; subst x; reflexivity.
Qed.

Lemma marker_line_from_nil (m : jsstring) (b : bool) :
  marker m = true -> marker_line_from m b [] = false.
Proof.
  intros H. destruct (marker_inv m H) as (m0 & -> & _).
  simpl. now rewrite andb_false_r.
Qed.

(** A line that begins with [<] is not a heading line. *)
Lemma marker_line_from_tagged (m : jsstring) (b : bool) (x s : jsstring) :
  marker m = true -> one_line x = true ->
  marker_line_from m b ((60%N :: x) ++ s) = marker_line_from m false s.
Proof.
  intros Hm Hx. destruct (marker_inv m Hm) as (m0 & Em & _).
  cbn [app]. rewrite marker_line_from_cons.
  assert (F : forall y, startsWith m (60%N :: y) = false)
    by (intros y; rewrite Em; reflexivity).
  rewrite F, andb_false_r. cbn [orb].
  change (isLineTerminator 60%N) with false.
  now apply marker_line_from_inside.
Qed.

(** A literal run matches exactly when the input begins with it. *)
Lemma matcher_lit (m : jsstring) :
  forall (p : option char) (s : jsstring) (cap : option jsstring) (k : cont),
    matcher (lit m) (MState p s cap) k =
    if startsWith m s
    then k (MState (last_unit m p) (skipn (List.length m) s) cap)
    else None.
Proof.
  induction m as [|a m IH]; intros p s cap k.
  - now rewrite startsWith_nil.
  - change (lit (a :: m)) with (Seq (Atom (Chr a)) (lit m)).
    cbn [matcher after cap1 atom_matches].
    destruct s as [|c s]; [reflexivity|].
    cbn [startsWith]. destruct (a =? c)%N eqn:E; [|reflexivity].
    apply N.eqb_eq in E; subst c.
    cbn [andb]. rewrite IH. reflexivity.
Qed.

(** A heading pattern at one position: it matches exactly at the beginning
    of a line that begins with the marker, up to the end of that line, and
    captures what follows the marker. *)
Lemma exec_at_heading_re (m : jsstring) (p : option char) (s : jsstring) :
  exec_at (heading_re m) p s =
  if at_bol p && startsWith m s
  then Some (MState (line_prev (last_unit m p) (skipn (List.length m) s))
                    (line_tail (skipn (List.length m) s))
                    (Some (line_head (skipn (List.length m) s))))
  else None.
Proof.
  unfold exec_at, heading_re, seqs.
  cbn [fold_right matcher prev after cap1].
  destruct (at_bol p); [|reflexivity].
  rewrite matcher_lit. cbn [andb].
  destruct (startsWith m s); [|reflexivity].
  cbn [matcher prev after cap1].
  rewrite star_dot_eol. cbn [prev after cap1].
  now rewrite firstn_line_head.
Qed.

(** Passing over the units of a match. *)
Lemma replace_from_skip (r : regex) (t : template) :
  forall (n : nat) (s : jsstring) (p : option char),
    n <= List.length s ->
    replace_from r t p n s =
    replace_from r t (last_unit (firstn n s) p) O (skipn n s).
Proof.
  induction n as [|n IH]; intros s p Hn.
  - reflexivity.
  - destruct s as [|c s]; [simpl in Hn; lia|].
    simpl in Hn. cbn [replace_from firstn skipn].
    rewrite IH by lia. reflexivity.
Qed.

(** Where the pattern matches a non-empty run, the substitution is emitted
    and the run is passed over. *)
Lemma replace_from_match (r : regex) (t : template) (p : option char)
      (s : jsstring) (st : mstate) (n : nat) :
  exec_at r p s = Some st ->
  List.length s - List.length (after st) = S n ->
  replace_from r t p O s = substitute t (cap1 st) ++ replace_from r t p (S n) s.
Proof.
  intros He Hl. destruct s as [|c s].
  - simpl in Hl. discriminate Hl.
  - cbn [replace_from]. rewrite He, Hl. reflexivity.
Qed.

Section HeadingPass.

(** The marker of the pass, space included, and the two tags. *)
Variables m o c : jsstring.

Hypothesis marker_m : marker m = true.
Hypothesis o_begins : startsWith [60%N] o = true.
Hypothesis o_one_line : one_line o = true.
Hypothesis c_one_line : one_line c = true.

Let r := heading_re m.
Let t := heading_tpl o c.

Lemma heading_no_match (p : option char) (s : jsstring) :
  at_bol p && startsWith m s = false -> exec_at r p s = None.
Proof. intros H. unfold r. now rewrite exec_at_heading_re, H. Qed.

Lemma heading_end (p : option char) : replace_from r t p O [] = [].
Proof.
  destruct (marker_inv m marker_m) as (m0 & Em & _).
  cbn [replace_from]. rewrite heading_no_match; [reflexivity|].
  rewrite Em. apply andb_false_r.
Qed.

(** At the beginning of a line that begins with the marker, the pass
    writes the two tags around the rest of the line and resumes at the end
    of the line. *)
Lemma heading_match (p : option char) (rest : jsstring) :
  at_bol p = true ->
  replace_from r t p O (m ++ rest) =
  o ++ line_head rest ++ c ++
  replace_from r t (last_unit (m ++ line_head rest) p) O (line_tail rest).
Proof.
  intros Hp.
  destruct (marker_inv m marker_m) as (m0 & Em & _).
  assert (He : exec_at r p (m ++ rest) =
               Some (MState (line_prev (last_unit m p) rest) (line_tail rest)
                            (Some (line_head rest)))).
  { unfold r. rewrite exec_at_heading_re, Hp, startsWith_app, skipn_length_app.
    reflexivity. }
  assert (Hl : List.length (m ++ rest) - List.length (line_tail rest) =
               S (List.length (m0 ++ line_head rest))).
  { rewrite <- (line_head_tail rest) at 1. rewrite Em.
    cbn [app List.length]. rewrite !length_app. lia. }
  rewrite (replace_from_match r t p (m ++ rest) _ _ He Hl). cbn [cap1].
  rewrite replace_from_skip
    by (rewrite <- (line_head_tail rest) at 2; rewrite Em;
        cbn [app List.length]; rewrite !length_app; lia).
  replace (S (List.length (m0 ++ line_head rest)))
    with (List.length (m ++ line_head rest)) by (now rewrite Em).
  replace (m ++ rest) with ((m ++ line_head rest) ++ line_tail rest)
    by (now rewrite <- app_assoc, line_head_tail).
  rewrite firstn_length_app, skipn_length_app.
  unfold t, heading_tpl, substitute. cbn [flat_map].
  now rewrite app_nil_r, <- !app_assoc.
Qed.

(** Through a pass that does not match at the first position, the text
    begins with a given single-line run exactly when it did before. *)
Lemma heading_pass_startsWith (m' : jsstring) :
  one_line m' = true ->
  forall (s : jsstring) (p : option char),
    exec_at r p s = None ->
    startsWith m' (replace_from r t p O s) = startsWith m' s.
Proof.
  induction m' as [|a m' IH]; intros Hm' s p He.
  - now rewrite !startsWith_nil.
  - simpl in Hm'. apply andb_true_iff in Hm' as [Ha Hm'].
    apply negb_true_iff in Ha.
    destruct s as [|x s].
    + cbn [replace_from]. now rewrite He.
    + rewrite (@replace_from_copy r t p x s He). cbn [startsWith].
      destruct (a =? x)%N eqn:E; [|reflexivity].
      apply N.eqb_eq in E; subst x. cbn [andb].
      apply IH; [exact Hm'|].
      apply heading_no_match. simpl. now rewrite Ha.
Qed.

(** After the pass no line begins with its marker, and no line begins with
    another marker unless one did before. *)
Lemma heading_pass_marker_free_upto (m' : jsstring) :
  marker m' = true ->
  forall (n : nat) (s : jsstring) (p : option char),
    List.length s <= n ->
    m' = m \/ marker_line_from m' (at_bol p) s = false ->
    marker_line_from m' (at_bol p) (replace_from r t p O s) = false.
Proof.
  intros Hm'.
  destruct (marker_inv m' Hm') as (m0' & Em' & Hl' & _).
  destruct (marker_inv m marker_m) as (m0 & Em & Hl & _).
  destruct (startsWith_inv _ _ o_begins) as (o' & Eo).
  induction n as [|n IH]; intros s p Hn H.
  - destruct s; [|simpl in Hn; lia].
    rewrite heading_end. now apply marker_line_from_nil.
  - destruct (at_bol p && startsWith m s) eqn:E.
    + (* the line is a heading of this pass *)
      apply andb_true_iff in E as [Hp Hs].
      destruct (startsWith_inv _ _ Hs) as (rest & ->).
      rewrite (heading_match p rest Hp), Hp.
      set (R := replace_from r t (last_unit (m ++ line_head rest) p) O (line_tail rest)).
      assert (Ho' : one_line o' = true).
      { pose proof o_one_line as Ho1. rewrite Eo, one_line_app in Ho1.
        now apply andb_true_iff in Ho1 as [_ ?]. }
      replace (o ++ line_head rest ++ c ++ R)
        with ((60%N :: (o' ++ line_head rest ++ c)) ++ R)
        by (rewrite Eo; cbn [app]; now rewrite <- !app_assoc).
      rewrite (marker_line_from_tagged m' true _ R Hm')
        by (rewrite !one_line_app, Ho', one_line_line_head, c_one_line; reflexivity).
      subst R.
      assert (Hb : at_bol (last_unit (m ++ line_head rest) p) = false).
      { apply at_bol_last_unit.
        - now rewrite one_line_app, Hl, one_line_line_head.
        - rewrite Em. discriminate. }
      pose proof (IH (line_tail rest) (last_unit (m ++ line_head rest) p)) as IH'.
      rewrite Hb in IH'. apply IH'.
      * pose proof (line_tail_length rest).
        rewrite Em, length_app in Hn. simpl in Hn. lia.
      * destruct H as [H|H]; [now left | right].
        rewrite Hp in H.
        rewrite Em in H. cbn [app] in H. rewrite marker_line_from_cons in H.
        apply orb_false_iff in H as [_ H].
        change (isLineTerminator HASH) with false in H.
        rewrite <- (line_head_tail rest), app_assoc in H.
        rewrite marker_line_from_inside in H; [exact H|].
        rewrite one_line_app, one_line_line_head, andb_true_r.
        pose proof Hl as Hl0. rewrite Em in Hl0.
        change (HASH :: m0) with ([HASH] ++ m0) in Hl0.
        rewrite one_line_app in Hl0.
        now apply andb_true_iff in Hl0 as [_ ?].
    + (* no heading of this pass begins here *)
      pose proof (heading_no_match p s E) as He.
      destruct s as [|x s]; [rewrite heading_end; now apply marker_line_from_nil|].
      assert (Hhead : at_bol p && startsWith m' (x :: s) = false).
      { destruct H as [->|H]; [exact E|].
        rewrite marker_line_from_cons in H. now apply orb_false_iff in H as [H _]. }
      pose proof (heading_pass_startsWith m' Hl' (x :: s) p He) as Hsw.
      rewrite (@replace_from_copy r t p x s He) in Hsw |- *.
      rewrite marker_line_from_cons, Hsw, Hhead. cbn [orb].
      apply (IH s (Some x)); [simpl in Hn; lia|].
      destruct H as [H|H]; [now left | right].
      rewrite marker_line_from_cons in H. now apply orb_false_iff in H as [_ H].
Qed.

(** A text none of whose lines begins with the marker goes through the
    pass unchanged. *)
Lemma heading_pass_id (s : jsstring) :
  forall p, marker_line_from m (at_bol p) s = false -> replace_from r t p O s = s.
Proof.
  induction s as [|x s IH]; intros p H.
  - apply heading_end.
  - rewrite marker_line_from_cons in H. apply orb_false_iff in H as [H1 H2].
    rewrite (@replace_from_copy r t p x s (heading_no_match p (x :: s) H1)).
    f_equal. now apply (IH (Some x)).
Qed.

End HeadingPass.

(* ================================================================== *)
(** ** PreviewPage: the line-break pass on any text *)
(* ================================================================== *)

Lemma not_terminator_not_LF (d : char) :
  isLineTerminator d = false -> (d =? LF)%N = false.
Proof.
  unfold isLineTerminator. intros H.
  apply orb_false_iff in H as [H _]. apply orb_false_iff in H as [H _].
  now apply orb_false_iff in H as [H _].
Qed.

Lemma line_breaks_br (s : jsstring) :
  has_closing_newline (str "<br/>" ++ s) = has_closing_newline s.
Proof. reflexivity. Qed.

(** After the pass no LF is last or stands before a line terminator. *)
Lemma line_breaks_no_closing (s : jsstring) :
  has_closing_newline (line_breaks s) = false.
Proof.
  induction s as [|x s IH]; [reflexivity|].
  cbn [line_breaks]. destruct ((x =? LF)%N && at_eol s) eqn:E.
  - now rewrite line_breaks_br.
  - cbn [has_closing_newline]. rewrite IH, orb_false_r.
    destruct (x =? LF)%N; [|reflexivity]. cbn [andb] in E |- *.
    destruct s as [|d s]; [discriminate E|].
    cbn [at_eol] in E. cbn [line_breaks].
    rewrite (not_terminator_not_LF d E). cbn [andb at_eol]. exact E.
Qed.

Lemma line_breaks_startsWith (m : jsstring) :
  forallb (fun c => (c =? HASH)%N || (c =? SPACE)%N) m = true ->
  forall s, startsWith m (line_breaks s) = startsWith m s.
Proof.
  induction m as [|a m IH]; intros Hm s.
  - now rewrite !startsWith_nil.
  - cbn [forallb] in Hm. apply andb_true_iff in Hm as [Ha Hm].
    destruct s as [|x s]; [reflexivity|].
    cbn [line_breaks]. destruct ((x =? LF)%N && at_eol s) eqn:E.
    + apply andb_true_iff in E as [E _]. apply N.eqb_eq in E; subst x.
      apply orb_true_iff in Ha as [Ha|Ha]; apply N.eqb_eq in Ha; subst a;
        reflexivity.
    + cbn [startsWith]. now rewrite IH.
Qed.

(** The pass makes no new heading line. *)
Lemma line_breaks_marker_free (m : jsstring) :
  marker m = true ->
  forall (s : jsstring) (b : bool),
    marker_line_from m b s = false ->
    marker_line_from m b (line_breaks s) = false.
Proof.
  intros Hm. destruct (marker_inv m Hm) as (m0 & Em & _ & Hhs).
  induction s as [|x s IH]; intros b H; [exact H|].
  pose proof (line_breaks_startsWith m Hhs (x :: s)) as Hsw.
  rewrite marker_line_from_cons in H. apply orb_false_iff in H as [H1 H2].
  cbn [line_breaks] in Hsw |- *. destruct ((x =? LF)%N && at_eol s) eqn:E.
  - apply andb_true_iff in E as [E _]. apply N.eqb_eq in E; subst x.
    change (str "<br/>" ++ line_breaks s)
      with ((60%N :: str "br/>") ++ line_breaks s).
    rewrite (marker_line_from_tagged m b (str "br/>") (line_breaks s) Hm eq_refl).
    apply IH. now apply marker_line_from_weaken.
  - rewrite marker_line_from_cons, Hsw, H1. cbn [orb]. now apply IH.
Qed.

Lemma no_closing_no_trailing (s : jsstring) :
  has_closing_newline s = false -> ends_with_newline s = false.
Proof.
  induction s as [|x s IH]; intros H; [reflexivity|].
  cbn [has_closing_newline] in H. apply orb_false_iff in H as [H1 H2].
  destruct s as [|d s].
  - cbn [ends_with_newline]. now rewrite andb_true_r in H1.
  - now apply IH.
Qed.

(* ================================================================== *)
(** ** PreviewPage: the four passes together *)
(* ================================================================== *)

Lemma pass_marker_free (m o c m' x : jsstring) :
  marker m = true -> startsWith [60%N] o = true ->
  one_line o = true -> one_line c = true -> marker m' = true ->
  m' = m \/ marker_line_from m' true x = false ->
  marker_line_from m' true (replace (heading_re m) (heading_tpl o c) x) = false.
Proof.
  intros Hm Ho Ho1 Hc Hm' H. unfold replace.
  exact (heading_pass_marker_free_upto m o c Hm Ho Ho1 Hc m' Hm'
           (List.length x) x None (le_n _) H).
Qed.

Lemma pass_id (m o c x : jsstring) :
  marker m = true -> marker_line_from m true x = false ->
  replace (heading_re m) (heading_tpl o c) x = x.
Proof.
  intros Hm H. unfold replace. exact (heading_pass_id m o c Hm x None H).
Qed.

(** A single line that does not begin with the marker has no line that
    does. *)
Lemma one_line_marker_free (m y : jsstring) :
  marker m = true -> one_line y = true -> startsWith m y = false ->
  marker_line_from m true y = false.
Proof.
  intros Hm Hy Hs. destruct y as [|a y].
  - now apply marker_line_from_nil.
  - rewrite marker_line_from_cons, Hs. cbn [andb orb].
    change (a :: y) with ([a] ++ y) in Hy. rewrite one_line_app in Hy.
    apply andb_true_iff in Hy as [Ha Hy].
    cbn in Ha. rewrite andb_true_r in Ha. apply negb_true_iff in Ha.
    rewrite Ha, <- (app_nil_r y), (marker_line_from_inside m y [] Hy).
    now apply marker_line_from_nil.
Qed.

(** One pass on a single line that begins with its marker. *)
Lemma heading_line_pass (m o c t : jsstring) :
  marker m = true -> one_line t = true ->
  replace (heading_re m) (heading_tpl o c) (m ++ t) = o ++ t ++ c.
Proof.
  intros Hm Ht. unfold replace.
  rewrite (heading_match m o c Hm None t eq_refl).
  rewrite (one_line_head t Ht), (one_line_tail t Ht).
  rewrite (heading_end m o c Hm). now rewrite app_nil_r.
Qed.

(** The text after the three heading passes and after the fourth pass. *)
Lemma renderedMd_headings_done (x : jsstring) :
  marker_line_from (str "### ") true (renderedMd x) = false /\
  marker_line_from (str "## ") true (renderedMd x) = false /\
  marker_line_from (str "# ") true (renderedMd x) = false /\
  has_closing_newline (renderedMd x) = false.
Proof.
  unfold renderedMd.
  set (x1 := replace re_h3 tpl_h3 x).
  set (x2 := replace re_h2 tpl_h2 x1).
  set (x3 := replace re_h1 tpl_h1 x2).
  assert (H31 : marker_line_from (str "### ") true x1 = false).
  { apply (pass_marker_free (str "### ") (open_tag "h3" "neon-subtitle") (str "</h3>"));
      try reflexivity. now left. }
  assert (H32 : marker_line_from (str "### ") true x2 = false).
  { apply (pass_marker_free (str "## ") (open_tag "h2" "neon-subtitle") (str "</h2>"));
      try reflexivity. now right. }
  assert (H22 : marker_line_from (str "## ") true x2 = false).
  { apply (pass_marker_free (str "## ") (open_tag "h2" "neon-subtitle") (str "</h2>"));
      try reflexivity. now left. }
  assert (H33 : marker_line_from (str "### ") true x3 = false).
  { apply (pass_marker_free (str "# ") (open_tag "h1" "neon-title") (str "</h1>"));
      try reflexivity. now right. }
  assert (H23 : marker_line_from (str "## ") true x3 = false).
  { apply (pass_marker_free (str "# ") (open_tag "h1" "neon-title") (str "</h1>"));
      try reflexivity. now right. }
  assert (H13 : marker_line_from (str "# ") true x3 = false).
  { apply (pass_marker_free (str "# ") (open_tag "h1" "neon-title") (str "</h1>"));
      try reflexivity. now left. }
  unfold replace at 1 2 3 4. rewrite replace_from_re_br.
  repeat split.
  - now apply line_breaks_marker_free.
  - now apply line_breaks_marker_free.
  - now apply line_breaks_marker_free.
  - apply line_breaks_no_closing.
Qed.

Lemma pass_h3_id (x : jsstring) :
  marker_line_from (str "### ") true x = false -> replace re_h3 tpl_h3 x = x.
Proof.
  exact (pass_id (str "### ") (open_tag "h3" "neon-subtitle") (str "</h3>") x eq_refl).
Qed.

Lemma pass_h2_id (x : jsstring) :
  marker_line_from (str "## ") true x = false -> replace re_h2 tpl_h2 x = x.
Proof.
  exact (pass_id (str "## ") (open_tag "h2" "neon-subtitle") (str "</h2>") x eq_refl).
Qed.

Lemma pass_h1_id (x : jsstring) :
  marker_line_from (str "# ") true x = false -> replace re_h1 tpl_h1 x = x.
Proof.
  exact (pass_id (str "# ") (open_tag "h1" "neon-title") (str "</h1>") x eq_refl).
Qed.

(** A text with no heading line and no LF that is last or before a line
    terminator is a fixed point of the four passes. *)
Lemma renderedMd_fixed (x : jsstring) :
  marker_line_from (str "### ") true x = false ->
  marker_line_from (str "## ") true x = false ->
  marker_line_from (str "# ") true x = false ->
  has_closing_newline x = false ->
  renderedMd x = x.
Proof.
  intros H3 H2 H1 Hn. unfold renderedMd.
  rewrite (pass_h3_id x H3), (pass_h2_id x H2), (pass_h1_id x H1).
  unfold replace. rewrite replace_from_re_br.
  now apply line_breaks_id.
Qed.

(** X6.  A single line made of a heading marker, a space and a text [t] is
    rendered as the heading of that level around [t]; [t] is copied as it
    is, markup and [#] included. *)
Theorem renderedMd_heading_lines (t : jsstring) :
  one_line t = true ->
  renderedMd (str "### " ++ t) = open_tag "h3" "neon-subtitle" ++ t ++ str "</h3>" /\
  renderedMd (str "## " ++ t) = open_tag "h2" "neon-subtitle" ++ t ++ str "</h2>" /\
  renderedMd (str "# " ++ t) = open_tag "h1" "neon-title" ++ t ++ str "</h1>".
Proof.
  intros Ht.
  assert (Hfix : forall o c, startsWith [60%N] o = true -> one_line o = true ->
                             one_line c = true ->
                             renderedMd (o ++ t ++ c) = o ++ t ++ c).
  { intros o c Ho Ho1 Hc.
    assert (Hl : one_line (o ++ t ++ c) = true)
      by (now rewrite !one_line_app, Ho1, Ht, Hc).
    destruct (startsWith_inv _ _ Ho) as (o' & Eo).
    apply renderedMd_fixed;
      try (apply one_line_marker_free; [reflexivity | exact Hl | now rewrite Eo]).
    now apply one_line_no_closing_newline. }
  assert (Hl : forall m, one_line m = true -> one_line (m ++ t) = true)
    by (intros m Hm; now rewrite one_line_app, Hm, Ht).
  split; [|split].
  - unfold renderedMd.
    change re_h3 with (heading_re (str "### ")).
    change tpl_h3 with (heading_tpl (open_tag "h3" "neon-subtitle") (str "</h3>")).
    rewrite (heading_line_pass (str "### ") (open_tag "h3" "neon-subtitle") (str "</h3>") t eq_refl Ht).
    assert (H1 := Hfix (open_tag "h3" "neon-subtitle") (str "</h3>") eq_refl eq_refl eq_refl).
    unfold renderedMd in H1.
    rewrite pass_h3_id in H1;
      try (apply one_line_marker_free;
           [reflexivity | now rewrite !one_line_app, Ht | reflexivity]).
    exact H1.
  - unfold renderedMd.
    rewrite (pass_h3_id (str "## " ++ t))
      by (apply one_line_marker_free; [reflexivity | now apply Hl | reflexivity]).
    change re_h2 with (heading_re (str "## ")).
    change tpl_h2 with (heading_tpl (open_tag "h2" "neon-subtitle") (str "</h2>")).
    rewrite (heading_line_pass (str "## ") (open_tag "h2" "neon-subtitle") (str "</h2>") t eq_refl Ht).
    assert (H1 := Hfix (open_tag "h2" "neon-subtitle") (str "</h2>") eq_refl eq_refl eq_refl).
    unfold renderedMd in H1.
    rewrite pass_h3_id, pass_h2_id in H1;
      try (apply one_line_marker_free;
           [reflexivity | now rewrite !one_line_app, Ht | reflexivity]).
    exact H1.
  - unfold renderedMd.
    rewrite (pass_h3_id (str "# " ++ t))
      by (apply one_line_marker_free; [reflexivity | now apply Hl | reflexivity]).
    rewrite (pass_h2_id (str "# " ++ t))
      by (apply one_line_marker_free; [reflexivity | now apply Hl | reflexivity]).
    change re_h1 with (heading_re (str "# ")).
    change tpl_h1 with (heading_tpl (open_tag "h1" "neon-title") (str "</h1>")).
    rewrite (heading_line_pass (str "# ") (open_tag "h1" "neon-title") (str "</h1>") t eq_refl Ht).
    assert (H1 := Hfix (open_tag "h1" "neon-title") (str "</h1>") eq_refl eq_refl eq_refl).
    unfold renderedMd in H1.
    rewrite pass_h3_id, pass_h2_id, pass_h1_id in H1;
      try (apply one_line_marker_free;
           [reflexivity | now rewrite !one_line_app, Ht | reflexivity]).
    exact H1.
Qed.

(** A line with markup and a [#] inside, at each level. *)
Lemma renderedMd_heading_lines_witness :
  renderedMd (str "## " ++ str "<b>a</b> # b") =
  open_tag "h2" "neon-subtitle" ++ str "<b>a</b> # b" ++ str "</h2>".
Proof.
  exact (proj1 (proj2 (renderedMd_heading_lines (str "<b>a</b> # b") eq_refl))).
Defined.

(** X7.  A text in which no line begins with [# ], [## ] or [### ] (the
    space included) and no LF is last or stands before a line terminator is
    rendered unchanged: a [#] without a space after it, or more than three
    [#], do not make a heading. *)
Theorem renderedMd_unchanged_without_headings (x : jsstring) :
  has_heading_line x = false -> has_closing_newline x = false ->
  renderedMd x = x.
Proof.
  unfold has_heading_line. intros H Hn.
  apply orb_false_iff in H as [H H1]. apply orb_false_iff in H as [H3 H2].
  now apply renderedMd_fixed.
Qed.

Lemma renderedMd_unchanged_without_headings_witness :
  renderedMd (str "#### deep" ++ [LF] ++ str "#tag and #") =
  str "#### deep" ++ [LF] ++ str "#tag and #".
Proof.
  apply renderedMd_unchanged_without_headings; reflexivity.
Defined.

(** X8.  Rendering is idempotent: the rendered text is rendered to
    itself. *)
Theorem renderedMd_idempotent (x : jsstring) :
  renderedMd (renderedMd x) = renderedMd x.
Proof.
  destruct (renderedMd_headings_done x) as (H3 & H2 & H1 & Hn).
  now apply renderedMd_fixed.
Qed.

(** X9.  In the rendered text no line begins with a heading marker, and no
    LF is last or stands before a line terminator; in particular the
    rendered text never ends with LF. *)
Theorem renderedMd_output_shape (x : jsstring) :
  has_heading_line (renderedMd x) = false /\
  has_closing_newline (renderedMd x) = false /\
  ends_with_newline (renderedMd x) = false.
Proof.
  destruct (renderedMd_headings_done x) as (H3 & H2 & H1 & Hn).
  split; [|split].
  - unfold has_heading_line. now rewrite H3, H2, H1.
  - exact Hn.
  - now apply no_closing_no_trailing.
Qed.

(* ================================================================== *)
(** ** PreviewPage: the mount hook, the other paths *)
(* ================================================================== *)

Lemma mount_uml_ganttEl (wm : option Mermaid) (st st1 : refs) :
  mount_uml wm st = Return st1 -> ganttEl st1 = ganttEl st.
Proof.
  unfold mount_uml. destruct wm as [m|]; destruct (umlEl st) as [el|];
    try (intros H; injection H as <-; reflexivity).
  destruct (initialize m mermaid_config) as [u|e]; [|discriminate].
  cbn [bind]. destruct (render m (str "uml-svg") code) as [r|e]; [|discriminate].
  cbn [bind]. intros H; injection H as <-; reflexivity.
Qed.

(** X10.  The Gantt placeholder does not depend on the collaborator: a
    mounted Gantt element always ends with the placeholder markup, also
    when the collaborator throws, and a [null] ref stays [null]. *)
Theorem onMounted_gantt (wm : option Mermaid) (st : refs) :
  exists st',
    onMounted wm st = Return st' /\
    ganttEl st' =
    match ganttEl st with
    | Some _ => Some (Markup gantt_placeholder)
    | None => None
    end.
Proof.
  unfold onMounted. destruct (mount_uml wm st) as [st1|e] eqn:E; cbn [try_catch bind].
  - rewrite (mount_uml_ganttEl wm st st1 E).
    destruct (ganttEl st) eqn:G.
    + eexists; split; reflexivity.
    + exists st1. split; [reflexivity|].
      rewrite (mount_uml_ganttEl wm st st1 E). exact G.
  - destruct (ganttEl st) eqn:G.
    + eexists; split; reflexivity.
    + exists st. split; [reflexivity | exact G].
Qed.

(** X11.  When the collaborator is present, the diagram element is mounted,
    [initialize] returns and the awaited [render] resolves, the element
    shows the returned [svg] as markup, as it is. *)
Theorem onMounted_rendered
  (m : Mermaid) (st : refs) (el : content) (u : unit) (res : renderResult) :
  umlEl st = Some el ->
  initialize m mermaid_config = Return u ->
  render m (str "uml-svg") code = Return res ->
  exists st',
    onMounted (Some m) st = Return st' /\ umlEl st' = Some (Markup (svg res)).
Proof.
  intros Hel Hi Hr. unfold onMounted, mount_uml.
  rewrite Hel, Hi. cbn [bind]. rewrite Hr. cbn [bind try_catch ganttEl umlEl].
  destruct (ganttEl st); eexists; split; reflexivity.
Qed.

Lemma onMounted_rendered_witness :
  exists st',
    onMounted (Some (constant_mermaid (str "<svg><script/></svg>"))) mounted_refs =
      Return st' /\
    umlEl st' = Some (Markup (str "<svg><script/></svg>")).
Proof.
  exact (onMounted_rendered (constant_mermaid (str "<svg><script/></svg>"))
           mounted_refs (Markup []) tt (RenderResult (str "<svg><script/></svg>"))
           eq_refl eq_refl eq_refl).
Defined.

(** X12.  While the diagram element is not mounted ([umlEl.value] is
    [null]), the collaborator has no effect on the hook: the result is the
    one obtained without a collaborator, and the ref stays [null]. *)
Theorem onMounted_unmounted (wm : option Mermaid) (st : refs) :
  umlEl st = None ->
  onMounted wm st = onMounted None st /\
  exists st', onMounted wm st = Return st' /\ umlEl st' = None.
Proof.
  intros H.
  assert (E : forall w, mount_uml w st = Return st).
  { intros w. unfold mount_uml. rewrite H. now destruct w. }
  unfold onMounted. rewrite (E wm), (E None). split; [reflexivity|].
  cbn [try_catch bind].
  destruct (ganttEl st); eexists; (split; [reflexivity | exact H]).
Qed.

Lemma onMounted_unmounted_witness :
  onMounted (Some rejecting_mermaid) (Refs None (Some (Markup []))) =
  onMounted None (Refs None (Some (Markup []))).
Proof.
  exact (proj1 (onMounted_unmounted (Some rejecting_mermaid)
                  (Refs None (Some (Markup []))) eq_refl)).
Defined.

(* ================================================================== *)
(** ** HomePage: the flag, the message and the upload *)
(* ================================================================== *)

Lemma invalid_message_not_empty : invalid_message <> [].
Proof. discriminate. Qed.

Lemma not_null_false (v : JSON) : not_null v = false <-> v = JNull.
Proof. destruct v; simpl; split; (reflexivity || discriminate). Qed.

(** X13.  The validity flag is [false] exactly when [JSON.parse] throws or
    returns [null]; the watcher leaves the literal message exactly when
    [JSON.parse] throws.  So on a text that parses to [null] the editor is
    marked invalid while its message is empty. *)
Theorem editor_flag_and_message
  (JSON_parse : jsstring -> outcome JSON) (raw errorMsg : jsstring) :
  (isValid JSON_parse raw = Return false <->
   (exists e, JSON_parse raw = Throw e) \/ JSON_parse raw = Return JNull) /\
  (watch_raw JSON_parse raw errorMsg = Return invalid_message <->
   exists e, JSON_parse raw = Throw e) /\
  (JSON_parse raw = Return JNull ->
   isValid JSON_parse raw = Return false /\
   watch_raw JSON_parse raw errorMsg = Return []).
Proof.
  unfold isValid, parsed, watch_raw.
  destruct (JSON_parse raw) as [v|e]; cbn [try_catch bind].
  - split; [|split].
    + split.
      * intros H. injection H as H. apply not_null_false in H. subst v. now right.
      * intros [[e He]|H]; [discriminate He|]. injection H as ->. reflexivity.
    + split.
      * intros H. injection H as H. symmetry in H.
        now apply invalid_message_not_empty in H.
      * intros [e He]. discriminate He.
    + intros H. injection H as ->. split; reflexivity.
  - split; [|split].
    + split; [intros _; left; now exists e | reflexivity].
    + split; [intros _; now exists e | reflexivity].
    + discriminate.
Qed.

(** The text [null] with the parse function of the examples. *)
Lemma editor_flag_and_message_witness :
  isValid parse_literal_name (str "null") = Return false /\
  watch_raw parse_literal_name (str "null") invalid_message = Return [].
Proof.
  exact (proj2 (proj2 (editor_flag_and_message parse_literal_name (str "null")
                         invalid_message)) eq_refl).
Defined.

(** X14.  [upload] never throws and logs one line, whatever the text; it
    does not look at the validity flag, and the value it logs is [null]
    exactly when the flag is [false]. *)
Theorem upload_logs_parsed
  (JSON_parse : jsstring -> outcome JSON) (raw : jsstring)
  (console : list (jsstring * JSON)) :
  exists v,
    upload JSON_parse raw console = Return (console ++ [(str "uploaded", v)]) /\
    (v = JNull <-> isValid JSON_parse raw = Return false).
Proof.
  unfold upload, isValid, parsed.
  destruct (JSON_parse raw) as [v|e]; cbn [try_catch bind].
  - exists v. split; [reflexivity|]. split.
    + intros ->. reflexivity.
    + intros H. injection H as H. now apply not_null_false.
  - exists JNull. split; [reflexivity|]. split; reflexivity.
Qed.
